(** * x402 facilitator: Elysia payment middleware and Starknet client scheme

    A shallow embedding of [src/elysia/middleware.ts] and
    [src/starknet/exact/client.ts], and the properties of the request
    lifecycle, the path candidates, the HTTP adapter and the Starknet
    client scheme that hold of them.

    JavaScript strings are modelled by [string] (a sequence of bytes, the
    UTF-8 form of the text).  Every string operation the sources use
    inspects only ASCII characters ("/", "*", "[", " ", the letters of
    "payment-signature") and computes its offsets from the strings
    themselves, so it commutes with the encoding. *)

From Stdlib Require Import Ascii.
From stdpp Require Import base option list strings gmap pretty.

Set Default Proof Using "Type".
Set Warnings "-clear-no-such-hyp".

(* ===================================================================== *)
(** ** JavaScript values *)
(* ===================================================================== *)

(** The values the two source files handle at type [unknown], or read
    back out of a plain object.  [JsFunction n] and [JsIntrinsic n] are the
    built-in function or object of the realm called [n] (for instance
    "Object.prototype.toString" and "Object.prototype"). *)
#[warnings="-register-all"] Inductive JsValue : Type :=
| JsUndefined
| JsNull
| JsBoolean (b : bool)
| JsNumber (n : Z)
| JsBigInt (n : Z)
| JsSymbol (description : string)
| JsString (s : string)
| JsFunction (name : string)
| JsIntrinsic (name : string)
| JsArray (items : list JsValue)
| JsObject (properties : list (string * JsValue)).

(** [typeof v]. *)
Definition typeof (v : JsValue) : string :=
  match v with
  | JsUndefined => "undefined"
  | JsNull => "object"
  | JsBoolean _ => "boolean"
  | JsNumber _ => "number"
  | JsBigInt _ => "bigint"
  | JsSymbol _ => "symbol"
  | JsString _ => "string"
  | JsFunction _ => "function"
  | JsIntrinsic _ => "object"
  | JsArray _ => "object"
  | JsObject _ => "object"
  end.

(** [Array.isArray(v)]. *)
Definition Array_isArray (v : JsValue) : bool :=
  match v with JsArray _ => true | _ => false end.

(** [v === null] and [v === undefined]. *)
Definition is_null (v : JsValue) : bool :=
  match v with JsNull => true | _ => false end.

Definition is_undefined (v : JsValue) : bool :=
  match v with JsUndefined => true | _ => false end.

(** [a ?? b]. *)
Definition nullish (a b : JsValue) : JsValue :=
  match a with JsUndefined | JsNull => b | _ => a end.

(** A plain object, by its own properties.  Reading a property that is
    absent yields [undefined]; none of the property names the sources read
    this way ("scheme", "network", "payload", "typedData",
    "paymasterEndpoint") is inherited from [Object.prototype]. *)
Definition PlainObject := list (string * JsValue).

Fixpoint own_get (o : PlainObject) (key : string) : JsValue :=
  match o with
  | [] => JsUndefined
  | (k, v) :: rest => if String.eqb k key then v else own_get rest key
  end.

(* ===================================================================== *)
(** ** JavaScript string operations *)
(* ===================================================================== *)

Module JsString.

Definition is_slash (c : ascii) : bool := Ascii.eqb c "/"%char.

(** [s.startsWith(p)]. *)
Fixpoint startsWith (s p : string) : bool :=
  match p with
  | "" => true
  | String c p' =>
      match s with
      | "" => false
      | String d s' => Ascii.eqb c d && startsWith s' p'
      end
  end.

(** [s.slice(n)], for [0 <= n]. *)
Fixpoint sliceFrom (n : nat) (s : string) : string :=
  match n, s with
  | 0, _ => s
  | S _, "" => ""
  | S n', String _ s' => sliceFrom n' s'
  end.

(** [s.slice(0, n)], for [0 <= n]. *)
Fixpoint sliceTo (n : nat) (s : string) : string :=
  match n, s with
  | 0, _ => ""
  | S _, "" => ""
  | S n', String c s' => String c (sliceTo n' s')
  end.

(** Whether a non-empty rest of the subject matches [\/+$]. *)
Fixpoint onlySlashes (s : string) : bool :=
  match s with
  | "" => true
  | String c s' => is_slash c && onlySlashes s'
  end.

(** [s.replace(/\/+$/, "")]: the leftmost match is the whole run of
    slashes that ends the string. *)
Fixpoint stripTrailingSlashes (s : string) : string :=
  match s with
  | "" => ""
  | String c s' =>
      if onlySlashes s then "" else String c (stripTrailingSlashes s')
  end.

(** [s.search(/\/(\*|\[)/)]; [None] stands for [-1]. *)
Fixpoint searchWildcard (s : string) : option nat :=
  match s with
  | "" => None
  | String c s' =>
      if is_slash c && (startsWith s' "*" || startsWith s' "[")
      then Some 0
      else S <$> searchWildcard s'
  end.

(** [s.lastIndexOf("/")]; [None] stands for [-1]. *)
Fixpoint lastIndexOfSlash (s : string) : option nat :=
  match s with
  | "" => None
  | String c s' =>
      match lastIndexOfSlash s' with
      | Some i => Some (S i)
      | None => if is_slash c then Some 0 else None
      end
  end.

(** [s.includes(" ")]. *)
Fixpoint includesSpace (s : string) : bool :=
  match s with
  | "" => false
  | String c s' => Ascii.eqb c " "%char || includesSpace s'
  end.

(** The number of bytes of the [\s] character that starts [s], [0] when
    none does: TAB, LF, VT, FF, CR, SP, then U+00A0, U+1680,
    U+2000..U+200A, U+2028, U+2029, U+202F, U+205F, U+3000 and U+FEFF in
    their UTF-8 form. *)
Definition whitespaceWidth (s : string) : nat :=
  match s with
  | String c rest =>
      let b0 := nat_of_ascii c in
      if (9 <=? b0) && (b0 <=? 13) || (b0 =? 32) then 1
      else
        match rest with
        | String c1 rest1 =>
            let b1 := nat_of_ascii c1 in
            if (b0 =? 194) && (b1 =? 160) then 2
            else
              match rest1 with
              | String c2 _ =>
                  let b2 := nat_of_ascii c2 in
                  if (b0 =? 225) && (b1 =? 154) && (b2 =? 128) then 3
                  else if (b0 =? 226) && (b1 =? 128) &&
                          ((128 <=? b2) && (b2 <=? 138)
                           || (b2 =? 168) || (b2 =? 169) || (b2 =? 175)) then 3
                  else if (b0 =? 226) && (b1 =? 129) && (b2 =? 159) then 3
                  else if (b0 =? 227) && (b1 =? 128) && (b2 =? 128) then 3
                  else if (b0 =? 239) && (b1 =? 187) && (b2 =? 191) then 3
                  else 0
              | "" => 0
              end
        | "" => 0
        end
  | "" => 0
  end.

(** [s.split(/\s+/)]: the pieces between the maximal runs of white
    space.  [skip] counts the bytes left of the white-space character
    being read, [inRun] says whether the previous character was white
    space, [piece] is the piece being read. *)
Fixpoint splitWhitespace_go (s : string) (skip : nat) (inRun : bool)
    (piece : string) : list string :=
  match s with
  | "" => [piece]
  | String c s' =>
      match skip with
      | S k => splitWhitespace_go s' k inRun piece
      | 0 =>
          match whitespaceWidth s with
          | 0 => splitWhitespace_go s' 0 false (piece +:+ String c "")
          | S k =>
              if inRun then splitWhitespace_go s' k true piece
              else piece :: splitWhitespace_go s' k true ""
          end
      end
  end.

Definition splitWhitespace (s : string) : list string :=
  splitWhitespace_go s 0 false "".

(** [c.toLowerCase()] on one byte.  No character outside "A".."Z"
    lowercases to a letter of "payment-signature", the only string the
    sources compare a lowercased name with. *)
Definition lowerAscii (c : ascii) : ascii :=
  let n := nat_of_ascii c in
  if (65 <=? n) && (n <=? 90) then ascii_of_nat (n + 32) else c.

Fixpoint toLowerCase (s : string) : string :=
  match s with
  | "" => ""
  | String c s' => String (lowerAscii c) (toLowerCase s')
  end.

(** [parts.join(sep)]. *)
Fixpoint join (sep : string) (parts : list string) : string :=
  match parts with
  | [] => ""
  | [p] => p
  | p :: rest => p +:+ sep +:+ join sep rest
  end.

End JsString.

(** A JavaScript [Set] of strings keeps its elements in insertion order,
    without duplicates; [Array.from] lists them in that order. *)
Definition Set_add (s : list string) (x : string) : list string :=
  if bool_decide (x ∈ s) then s else s ++ [x].

Definition Set_of (xs : list string) : list string := foldl Set_add [] xs.

(* ===================================================================== *)
(** ** src/elysia/middleware.ts: request paths *)
(* ===================================================================== *)

(** What the platform's [URL] parser yields, as far as the middleware reads
    it: [url.pathname] and the entries of [url.searchParams], in the order
    of the query string. *)
Record URL := {
  pathname : string;
  searchParams : list (string * string);
}.

(** The request header list: [Headers_get] is [headers.get(name)] of the
    Fetch standard, for [name] a header name; names compare without case
    and the values of a repeated header are joined by ", ". *)
Definition Headers := list (string * string).

Definition Headers_get (h : Headers) (name : string) : option string :=
  match
    map snd
      (filter (λ kv, JsString.toLowerCase (fst kv) = JsString.toLowerCase name) h)
  with
  | [] => None
  | values => Some (JsString.join ", " values)
  end.

Record Request := {
  req_url : string;
  req_method : string;
  req_headers : Headers;
}.

(** [ElysiaRequestContext]; [None] is a [path] or [route] that is not a
    string. *)
Record ElysiaRequestContext := {
  request : Request;
  body : JsValue;
  path : option string;
  route : option string;
}.

(** The parts of the JavaScript realm that the middleware calls: the URL
    parser, [new URL(input)] and [new URL(input, base)], and the names of
    the string-keyed properties of [Array.prototype]. *)
Class Realm := {
  new_URL : string → option string → URL;
  ArrayPrototype_has : string → bool;
}.

Definition normalizePathCandidate (value : string) : string :=
  if JsString.startsWith value "/" then value else "/" +:+ value.

Definition normalizePrefix (value : string) : string :=
  if String.eqb value "/" then "" else JsString.stripTrailingSlashes value.

Definition getStaticPrefix (routePath : string) : string :=
  let staticPath :=
    match JsString.searchWildcard routePath with
    | None => routePath
    | Some i => JsString.sliceTo i routePath
    end in
  let normalized := JsString.stripTrailingSlashes (normalizePathCandidate staticPath) in
  match JsString.lastIndexOfSlash normalized with
  | None | Some 0 => ""
  | Some lastSlash => JsString.sliceTo lastSlash normalized
  end.

(** [RoutesConfig], by [Object.keys(routes)].  A single route
    configuration has the key "accepts"; a table of routes has one key per
    route pattern. *)
Definition RoutesConfig := list string.

Definition getRoutePatternPaths (routes : option RoutesConfig) : list string :=
  match routes with
  | None => []
  | Some keys =>
      if bool_decide ("accepts" ∈ keys) then ["*"]
      else
        map (λ pattern,
               let rawPath :=
                 if JsString.includesSpace pattern
                 then default "" (JsString.splitWhitespace pattern !! 1)
                 else pattern in
               normalizePathCandidate rawPath)
            keys
  end.

(** The first loop of [expandPathCandidates]: the set of prefixes. *)
Definition collectPrefixes (routePatterns : list string) : list string :=
  foldl (λ prefixes pattern,
           if String.eqb pattern "*" then prefixes
           else
             let prefix := normalizePrefix (getStaticPrefix pattern) in
             if String.eqb prefix "" then prefixes else Set_add prefixes prefix)
        [] routePatterns.

(** The body of the inner loop, for one prefix and one base candidate. *)
Definition expandStep (prefix : string) (candidates : list string)
    (candidate : string) : list string :=
  let candidates :=
    if negb (JsString.startsWith candidate prefix)
    then Set_add candidates (normalizePathCandidate (prefix +:+ candidate))
    else candidates in
  if JsString.startsWith candidate prefix
  then
    let rest := JsString.sliceFrom (String.length prefix) candidate in
    let stripped := if String.eqb rest "" then "/" else rest in
    Set_add candidates (normalizePathCandidate stripped)
  else candidates.

Definition expandPathCandidates (baseCandidates routePatterns : list string)
    : list string :=
  foldl (λ candidates prefix, foldl (expandStep prefix) candidates baseCandidates)
        (Set_of baseCandidates) (collectPrefixes routePatterns).

Definition resolveUrl `{Realm} (req : Request) : URL :=
  if JsString.startsWith (req_url req) "http://"
     || JsString.startsWith (req_url req) "https://"
  then new_URL (req_url req) None
  else new_URL (req_url req) (Some "http://localhost").

(** [typeof v === "string" && v.length > 0]. *)
Definition nonEmptyString (v : option string) : option string :=
  match v with
  | Some s => if String.eqb s "" then None else Some s
  | None => None
  end.

Definition getPathCandidates `{Realm} (ctx : ElysiaRequestContext)
    (fallback : string) : list string :=
  let candidates := Set_add [] (normalizePathCandidate (pathname (resolveUrl (request ctx)))) in
  let candidates := Set_add candidates (normalizePathCandidate fallback) in
  let candidates :=
    match nonEmptyString (path ctx) with
    | Some p => Set_add candidates (normalizePathCandidate p)
    | None => candidates
    end in
  match nonEmptyString (route ctx) with
  | Some r => Set_add candidates (normalizePathCandidate r)
  | None => candidates
  end.

(* ===================================================================== *)
(** ** src/elysia/middleware.ts: the HTTP adapter *)
(* ===================================================================== *)

(** [queryParams] is an object literal used as a map.  Its own properties
    are [q_own]; its prototype is [Object.prototype] ([q_proto = None])
    until an assignment to "__proto__" reaches the setter of
    [Object.prototype] and installs an array in its place
    ([q_proto = Some items]). *)
Record QueryObject := {
  q_own : gmap string JsValue;
  q_proto : option (list JsValue);
}.

Definition emptyObject : QueryObject := {| q_own := ∅; q_proto := None |}.

(** The function-valued properties of [Object.prototype]. *)
Definition ObjectPrototype_methods : list string :=
  [ "constructor"; "hasOwnProperty"; "isPrototypeOf"; "propertyIsEnumerable";
    "toLocaleString"; "toString"; "valueOf";
    "__defineGetter__"; "__defineSetter__"; "__lookupGetter__"; "__lookupSetter__" ].

(** Reading [key] where the lookup has reached [Object.prototype]; the
    getter of "__proto__" yields the prototype of the receiver. *)
Definition ObjectPrototype_get (receiverProto : JsValue) (key : string) : JsValue :=
  if String.eqb key "__proto__" then receiverProto
  else if bool_decide (key ∈ ObjectPrototype_methods)
       then JsFunction ("Object.prototype." +:+ key)
       else JsUndefined.

(** Whether [key] names a property that every plain object inherits. *)
Definition inheritedKey (key : string) : bool :=
  String.eqb key "__proto__" || bool_decide (key ∈ ObjectPrototype_methods).

(** The index that [key] denotes in an array of [n] elements. *)
Definition arrayIndex (n : nat) (key : string) : option nat :=
  snd <$> list_find (λ i, pretty i = key) (seq 0 n).

(** Reading [key] on an array and on [Array.prototype]. *)
Definition Array_get `{Realm} (items : list JsValue) (key : string) : option JsValue :=
  match arrayIndex (length items) key with
  | Some i => items !! i
  | None =>
      if String.eqb key "length" then Some (JsNumber (Z.of_nat (length items)))
      else if String.eqb key "__proto__" then None
      else if ArrayPrototype_has key then Some (JsFunction ("Array.prototype." +:+ key))
      else None
  end.

(** [queryParams[key]]. *)
Definition QueryObject_get `{Realm} (q : QueryObject) (key : string) : JsValue :=
  match q_own q !! key with
  | Some v => v
  | None =>
      match q_proto q with
      | None => ObjectPrototype_get (JsIntrinsic "Object.prototype") key
      | Some items =>
          match Array_get items key with
          | Some v => v
          | None => ObjectPrototype_get (JsArray items) key
          end
      end
  end.

(** [queryParams[key] = v].  Every inherited data property is writable, so
    the assignment creates an own property, except for "__proto__", whose
    setter replaces the prototype by an object and ignores a primitive. *)
Definition QueryObject_set (q : QueryObject) (key : string) (v : JsValue) : QueryObject :=
  if String.eqb key "__proto__" then
    match v with
    | JsArray items => {| q_own := q_own q; q_proto := Some items |}
    | _ => q
    end
  else {| q_own := <[key := v]> (q_own q); q_proto := q_proto q |}.

(** [existing.push(value)] for the array [existing = queryParams[key]]:
    an own property, an element of the prototype array, or that array
    itself. *)
Definition QueryObject_push (q : QueryObject) (key : string) (value : JsValue)
    : QueryObject :=
  match q_own q !! key with
  | Some (JsArray items) =>
      {| q_own := <[key := JsArray (items ++ [value])]> (q_own q); q_proto := q_proto q |}
  | Some _ => q
  | None =>
      match q_proto q with
      | None => q
      | Some items =>
          match arrayIndex (length items) key with
          | Some i =>
              match items !! i with
              | Some (JsArray inner) =>
                  {| q_own := q_own q;
                     q_proto := Some (<[i := JsArray (inner ++ [value])]> items) |}
              | _ => q
              end
          | None => {| q_own := q_own q; q_proto := Some (items ++ [value]) |}
          end
      end
  end.

(** The body of the loop over [url.searchParams.entries()]. *)
Definition addQueryParam `{Realm} (q : QueryObject) (entry : string * string)
    : QueryObject :=
  let existing := QueryObject_get q (fst entry) in
  if is_undefined existing then QueryObject_set q (fst entry) (JsString (snd entry))
  else if Array_isArray existing then QueryObject_push q (fst entry) (JsString (snd entry))
  else QueryObject_set q (fst entry) (JsArray [existing; JsString (snd entry)]).

Definition buildQueryParams `{Realm} (entries : list (string * string)) : QueryObject :=
  foldl addQueryParam emptyObject entries.

Definition DEFAULT_PAYMENT_HEADER_ALIASES : list string := ["x-payment"].

(** The loop over [paymentHeaderAliases] in [getHeader]. *)
Fixpoint firstAliasValue (h : Headers) (aliases : list string) : option string :=
  match aliases with
  | [] => None
  | alias :: rest =>
      match Headers_get h alias with
      | Some aliasValue => Some aliasValue
      | None => firstAliasValue h rest
      end
  end.

(** [HTTPAdapter]: each method by what it returns; [None] is
    [undefined]. *)
Record HTTPAdapter := {
  getHeader : string → option string;
  getMethod : string;
  getPath : string;
  getUrl : string;
  getAcceptHeader : string;
  getUserAgent : string;
  getQueryParams : QueryObject;
  getQueryParam : string → JsValue;
  getBody : JsValue;
}.

Definition createAdapter `{Realm} (ctx : ElysiaRequestContext)
    (paymentHeaderAliases : list string) : HTTPAdapter :=
  let url := resolveUrl (request ctx) in
  let adapterPath :=
    match nonEmptyString (path ctx) with
    | Some p => normalizePathCandidate p
    | None => pathname url
    end in
  let queryParams := buildQueryParams (searchParams url) in
  {| getHeader := λ name,
       match Headers_get (req_headers (request ctx)) name with
       | Some direct => Some direct
       | None =>
           if String.eqb (JsString.toLowerCase name) "payment-signature"
           then firstAliasValue (req_headers (request ctx)) paymentHeaderAliases
           else None
       end;
     getMethod := req_method (request ctx);
     getPath := adapterPath;
     getUrl := req_url (request ctx);
     getAcceptHeader := default "" (Headers_get (req_headers (request ctx)) "accept");
     getUserAgent := default "" (Headers_get (req_headers (request ctx)) "user-agent");
     getQueryParams := queryParams;
     getQueryParam := λ name, QueryObject_get queryParams name;
     getBody := body ctx |}.

(* ===================================================================== *)
(** ** src/elysia/middleware.ts: the two hooks *)
(* ===================================================================== *)

(** The hooks are modelled from the resolved HTTP server on: what
    [createElysiaPaymentMiddleware] does once at start-up
    ([resolveHttpServer], [registerPaywallProvider], [initialize]) and
    [debugLog], which only writes to the console, are left out.

    [HTTPProcessResult] and the settlement result of the protocol library;
    payment payloads, payment requirements, paywall configurations and
    response bodies are opaque to the middleware. *)
Record HTTPResponseInstructions := {
  resp_status : Z;
  resp_headers : gmap string string;
  resp_body : JsValue;
}.

Inductive HTTPProcessResult :=
| NoPaymentRequired
| PaymentVerified (paymentPayload paymentRequirements : PlainObject)
| PaymentError (response : HTTPResponseInstructions).

Inductive ProcessSettleResult :=
| SettleSuccess (headers : gmap string string)
| SettleFailure (errorReason : string).

(** [TrackingResult] of the upto module: [success] is [true] with the
    session id, or [false] with the error code and the session id when
    there is one. *)
Inductive TrackingResult :=
| TrackingSuccess (sessionId : string)
| TrackingFailure (error : string) (sessionId : option string).

Definition tracking_success (t : TrackingResult) : bool :=
  match t with TrackingSuccess _ => true | TrackingFailure _ _ => false end.

Record HTTPRequestContext := {
  ctx_adapter : HTTPAdapter;
  ctx_path : string;
  ctx_method : string;
}.

Record ElysiaPaymentState := {
  result : HTTPProcessResult;
  tracking : option TrackingResult;
}.

(** The calls that leave the middleware, in the order they are made;
    [RouteHandlerCall] is the framework running the route handler. *)
Inductive Event :=
| ProcessHTTPRequestCall (path : string) (result : HTTPProcessResult)
| TrackUptoPaymentCall (result : TrackingResult)
| ProcessSettlementCall (paymentPayload paymentRequirements : PlainObject)
    (result : ProcessSettleResult)
| RouteHandlerCall.

Definition isProcessHTTPRequestCall (e : Event) : bool :=
  match e with ProcessHTTPRequestCall _ _ => true | _ => false end.
Definition isTrackUptoPaymentCall (e : Event) : bool :=
  match e with TrackUptoPaymentCall _ => true | _ => false end.
Definition isProcessSettlementCall (e : Event) : bool :=
  match e with ProcessSettlementCall _ _ _ => true | _ => false end.

(** The protocol library's HTTP resource server, over the state [World]
    of everything outside the middleware. *)
Record x402HTTPResourceServer (World : Type) := {
  processHTTPRequest :
    HTTPRequestContext → option JsValue → World → HTTPProcessResult * World;
  processSettlement :
    PlainObject → PlainObject → World → ProcessSettleResult * World;
}.
Arguments processHTTPRequest {World}.
Arguments processSettlement {World}.

(** What the middleware imports from the upto module. *)
Definition UptoSessionStore := nat.

Class UptoLib (World : Type) := {
  trackUptoPayment :
    UptoSessionStore → PlainObject → PlainObject → World → TrackingResult * World;
  TRACKING_ERROR_STATUS : string → Z;
  TRACKING_ERROR_MESSAGES : string → string;
}.

Record UptoConfig := {
  upto_store : UptoSessionStore;
  upto_autoTrack : option bool;
}.

Inductive PaywallSource (World : Type) :=
| PaywallStatic (paywall : JsValue)
| PaywallFunction (f : Request → World → JsValue * World).
Arguments PaywallStatic {World}.
Arguments PaywallFunction {World}.

(** [ElysiaPaymentMiddlewareConfig], with [httpServer] the server that
    [resolveHttpServer] yields. *)
Record ElysiaPaymentMiddlewareConfig (World : Type) := {
  httpServer : x402HTTPResourceServer World;
  routes : option RoutesConfig;
  paywallConfig : option (PaywallSource World);
  paymentHeaderAliases : option (list string);
  autoSettle : option bool;
  upto : option UptoConfig;
}.
Arguments httpServer {World}.
Arguments routes {World}.
Arguments paywallConfig {World}.
Arguments paymentHeaderAliases {World}.
Arguments autoSettle {World}.
Arguments upto {World}.

(** [ctx.set]. *)
Record ElysiaSet := {
  set_status : option Z;
  set_headers : option (gmap string string);
}.

(** Everything a hook reads and writes besides the request. *)
Record Store (World : Type) := {
  world : World;
  trace : list Event;
  set : ElysiaSet;
  x402 : option ElysiaPaymentState;
}.
Arguments world {World}.
Arguments trace {World}.
Arguments set {World}.
Arguments x402 {World}.

Definition mergeHeaders (current : option (gmap string string))
    (next : gmap string string) : gmap string string :=
  next ∪ default ∅ current.

Section Monad.
Context {World : Type}.

Definition M (A : Type) : Type := Store World → A * Store World.

Definition ret {A} (a : A) : M A := λ s, (a, s).

Definition bind {A B} (m : M A) (k : A → M B) : M B :=
  λ s, let (a, s') := m s in k a s'.

(** A call that leaves the middleware, recorded in the trace. *)
Definition call {A} (f : World → A * World) (event : A → Event) : M A :=
  λ s, let (a, w) := f (world s) in
       (a, {| world := w; trace := trace s ++ [event a];
              set := set s; x402 := x402 s |}).

(** A call of a function supplied by the application. *)
Definition callback {A} (f : World → A * World) : M A :=
  λ s, let (a, w) := f (world s) in
       (a, {| world := w; trace := trace s; set := set s; x402 := x402 s |}).

Definition set_x402 (state : ElysiaPaymentState) : M unit :=
  λ s, (tt, {| world := world s; trace := trace s; set := set s;
               x402 := Some state |}).

Definition get_x402 : M (option ElysiaPaymentState) := λ s, (x402 s, s).

Definition set_status_to (status : Z) : M unit :=
  λ s, (tt, {| world := world s; trace := trace s;
               set := {| set_status := Some status;
                         set_headers := set_headers (set s) |};
               x402 := x402 s |}).

(** [ctx.set.headers = mergeHeaders(ctx.set.headers, next)]. *)
Definition merge_set_headers (next : gmap string string) : M unit :=
  λ s, (tt, {| world := world s; trace := trace s;
               set := {| set_status := set_status (set s);
                         set_headers := Some (mergeHeaders (set_headers (set s)) next) |};
               x402 := x402 s |}).
End Monad.

Notation "x <- m ;; k" := (bind m (λ x, k))
  (at level 100, m at next level, right associativity).
Notation "m ;;; k" := (bind m (λ _, k))
  (at level 100, right associativity).

Section Hooks.
Context {World : Type} `{Realm} `{UptoLib World}.

Definition resolvePaywallConfig (source : option (PaywallSource World))
    (req : Request) : M (option JsValue) :=
  match source with
  | None => ret None
  | Some (PaywallFunction f) =>
      callback (λ w, let (paywall, w') := f req w in (Some paywall, w'))
  | Some (PaywallStatic paywall) => ret (Some paywall)
  end.

(** The constants that [createElysiaPaymentMiddleware] derives from the
    configuration. *)
Definition aliasesOf (config : ElysiaPaymentMiddlewareConfig World) : list string :=
  default DEFAULT_PAYMENT_HEADER_ALIASES (paymentHeaderAliases config).

Definition autoSettleOf (config : ElysiaPaymentMiddlewareConfig World) : bool :=
  default true (autoSettle config).

Definition autoTrackOf (config : ElysiaPaymentMiddlewareConfig World) : bool :=
  default true (upto config ≫= upto_autoTrack).

Definition routePatternsOf (config : ElysiaPaymentMiddlewareConfig World)
    : list string :=
  getRoutePatternPaths (routes config).

(** [pathCandidates] of [onBeforeHandle]. *)
Definition pathCandidatesOf (config : ElysiaPaymentMiddlewareConfig World)
    (ctx : ElysiaRequestContext) : list string :=
  let adapter := createAdapter ctx (aliasesOf config) in
  expandPathCandidates (getPathCandidates ctx (getPath adapter))
    (routePatternsOf config).

Definition isNoPaymentRequired (r : HTTPProcessResult) : bool :=
  match r with NoPaymentRequired => true | _ => false end.

(** [paymentRequirements.scheme === "upto"]. *)
Definition schemeIsUpto (paymentRequirements : PlainObject) : bool :=
  match own_get paymentRequirements "scheme" with
  | JsString s => String.eqb s "upto"
  | _ => false
  end.

(** The loop over [pathCandidates]; [result] is the variable of that
    name. *)
Fixpoint processCandidates (server : x402HTTPResourceServer World)
    (adapter : HTTPAdapter) (paywall : option JsValue)
    (candidates : list string) (result : HTTPProcessResult)
    : M HTTPProcessResult :=
  match candidates with
  | [] => ret result
  | candidate :: rest =>
      attempt <- call
        (processHTTPRequest server
           {| ctx_adapter := adapter; ctx_path := candidate;
              ctx_method := getMethod adapter |}
           paywall)
        (ProcessHTTPRequestCall candidate) ;;
      if negb (isNoPaymentRequired attempt) then ret attempt
      else processCandidates server adapter paywall rest attempt
  end.

Definition trackingErrorBody (error : string) (sessionId : option string)
    : JsValue :=
  JsObject
    [ ("error", JsString error);
      ("message", JsString (TRACKING_ERROR_MESSAGES error));
      ("sessionId", from_option JsString JsUndefined sessionId) ].

(** The first part of the hook registered by [app.onBeforeHandle], up
    to the end of the loop: the payment check.  It yields the final
    value of [result]. *)
Definition paymentCheck (config : ElysiaPaymentMiddlewareConfig World)
    (ctx : ElysiaRequestContext) : M HTTPProcessResult :=
  let adapter := createAdapter ctx (aliasesOf config) in
  paywall <- resolvePaywallConfig (paywallConfig config) (request ctx) ;;
  let pathCandidates :=
    expandPathCandidates (getPathCandidates ctx (getPath adapter))
      (routePatternsOf config) in
  processCandidates (httpServer config) adapter paywall
    pathCandidates NoPaymentRequired.

(** The hook registered by [app.onBeforeHandle]; [Some v] is a [return]
    of the value [v], which is [undefined] when a payment-error response
    has no body, and [None] is the plain [return] or the end of the
    hook. *)
Definition onBeforeHandle (config : ElysiaPaymentMiddlewareConfig World)
    (ctx : ElysiaRequestContext) : M (option JsValue) :=
  result <- paymentCheck config ctx ;;
  set_x402 {| result := result; tracking := None |} ;;;
  match result with
  | PaymentError response =>
      set_status_to (resp_status response) ;;;
      merge_set_headers (resp_headers response) ;;;
      ret (Some (resp_body response))
  | PaymentVerified paymentPayload paymentRequirements =>
      match upto config with
      | Some uptoConfig =>
          if schemeIsUpto paymentRequirements && autoTrackOf config then
            tracking <- call
              (trackUptoPayment (upto_store uptoConfig) paymentPayload
                 paymentRequirements)
              TrackUptoPaymentCall ;;
            set_x402 {| result := result; tracking := Some tracking |} ;;;
            match tracking with
            | TrackingFailure error sessionId =>
                set_status_to (TRACKING_ERROR_STATUS error) ;;;
                merge_set_headers {[ "content-type" := "application/json" ]} ;;;
                ret (Some (trackingErrorBody error sessionId))
            | TrackingSuccess sessionId =>
                merge_set_headers {[ "x-upto-session-id" := sessionId ]} ;;;
                ret None
            end
          else ret None
      | None => ret None
      end
  | NoPaymentRequired => ret None
  end.

(** The hook registered by [app.onAfterHandle]. *)
Definition onAfterHandle (config : ElysiaPaymentMiddlewareConfig World)
    (ctx : ElysiaRequestContext) : M unit :=
  state <- get_x402 ;;
  match state with
  | None => ret tt
  | Some state =>
      match result state with
      | PaymentVerified paymentPayload paymentRequirements =>
          if schemeIsUpto paymentRequirements then
            match tracking state with
            | Some (TrackingSuccess sessionId) =>
                merge_set_headers {[ "x-upto-session-id" := sessionId ]}
            | _ => ret tt
            end
          else if negb (autoSettleOf config) then ret tt
          else
            settlement <- call
              (processSettlement (httpServer config) paymentPayload
                 paymentRequirements)
              (ProcessSettlementCall paymentPayload paymentRequirements) ;;
            match settlement with
            | SettleSuccess headers => merge_set_headers headers
            | SettleFailure _ => ret tt
            end
      | _ => ret tt
      end
  end.

(** What the framework takes for a response out of what a hook returned:
    nothing when the hook returned [undefined], be it by a [return] of
    that value or by reaching its end. *)
Definition answerOf (returned : option JsValue) : option JsValue :=
  match returned with
  | Some JsUndefined | None => None
  | Some response => Some response
  end.

(** The framework's request lifecycle around the two hooks.  A value
    other than [undefined] returned by the before-handle hook is the
    response and the route handler is skipped; otherwise the route
    handler runs and the after-handle hook follows it.
    [afterHandleOnEarlyResponse] says whether the framework also runs the
    after-handle hook on a response that came from the before-handle
    hook. *)
Definition handleRequest (afterHandleOnEarlyResponse : bool)
    (config : ElysiaPaymentMiddlewareConfig World)
    (ctx : ElysiaRequestContext)
    (routeHandler : World → JsValue * World) : M JsValue :=
  early <- onBeforeHandle config ctx ;;
  match answerOf early with
  | Some response =>
      (if afterHandleOnEarlyResponse then onAfterHandle config ctx else ret tt) ;;;
      ret response
  | None =>
      response <- call routeHandler (λ _, RouteHandlerCall) ;;
      onAfterHandle config ctx ;;;
      ret response
  end.
End Hooks.

(* ===================================================================== *)
(** ** src/starknet/exact/client.ts *)
(* ===================================================================== *)

Inductive StarknetNetworkId := starknet_mainnet | starknet_sepolia.

(** [string | Partial<Record<StarknetNetworkId, string>>]. *)
Inductive NetworkOverride :=
| OverrideString (value : string)
| OverrideMap (entries : StarknetNetworkId → option string).

(** What is thrown: an error of the chain library, or [new Error(message)]
    of this file. *)
Inductive Thrown :=
| ChainLibraryError (e : JsValue)
| Error (message : string).

Record PaymasterOptions := {
  opt_endpoint : string;
  opt_network : StarknetNetworkId;
  opt_apiKey : option string;
}.

(** What the scheme imports from the chain library; [inl e] is the
    library throwing [e], or rejecting its promise with [e]. *)
Class StarknetLib := {
  DEFAULT_PAYMASTER_ENDPOINTS : StarknetNetworkId → string;
  validateNetwork : JsValue → JsValue + StarknetNetworkId;
  chain_createPaymentPayload :
    JsValue → Z → PlainObject → PaymasterOptions → JsValue + PlainObject;
}.

Record ExactStarknetClientScheme := {
  account : JsValue;
  paymasterEndpoint : option NetworkOverride;
  paymasterApiKey : option NetworkOverride;
}.

Definition missingTypedData : string :=
  "Starknet payment payload missing typedData (required).".

Definition assertStarknetTypedData (payload : PlainObject) : Thrown + unit :=
  let typedData := own_get payload "typedData" in
  let isObject :=
    String.eqb (typeof typedData) "object"
    && negb (is_null typedData)
    && negb (Array_isArray typedData) in
  if negb isObject then inl (Error missingTypedData) else inr tt.

Definition resolvePaymasterEndpoint `{StarknetLib} (network : StarknetNetworkId)
    (override : option NetworkOverride) : string :=
  match override with
  | Some (OverrideString value) => value
  | Some (OverrideMap entries) =>
      match entries network with
      | Some entry =>
          if negb (String.eqb entry "") then entry
          else DEFAULT_PAYMASTER_ENDPOINTS network
      | None => DEFAULT_PAYMASTER_ENDPOINTS network
      end
  | None => DEFAULT_PAYMASTER_ENDPOINTS network
  end.

Definition resolvePaymasterApiKey (network : StarknetNetworkId)
    (override : option NetworkOverride) : option string :=
  match override with
  | Some (OverrideString value) => Some value
  | Some (OverrideMap entries) => entries network
  | None => None
  end.

(** The options object that [createPaymentPayload] hands to the chain
    library; [apiKey] is present when the resolved key is truthy. *)
Definition paymasterOptionsOf `{StarknetLib} (this : ExactStarknetClientScheme)
    (network : StarknetNetworkId) : PaymasterOptions :=
  let paymasterEndpoint := resolvePaymasterEndpoint network (paymasterEndpoint this) in
  let paymasterApiKey := resolvePaymasterApiKey network (paymasterApiKey this) in
  {| opt_endpoint := paymasterEndpoint;
     opt_network := network;
     opt_apiKey :=
       match paymasterApiKey with
       | Some key => if String.eqb key "" then None else Some key
       | None => None
       end |}.

(** [ExactStarknetClientScheme.createPaymentPayload]. *)
Definition createPaymentPayload `{StarknetLib} (this : ExactStarknetClientScheme)
    (x402Version : Z) (requirements : PlainObject) : Thrown + PlainObject :=
  match validateNetwork (own_get requirements "network") with
  | inl e => inl (ChainLibraryError e)
  | inr network =>
      let endpoint := resolvePaymasterEndpoint network (paymasterEndpoint this) in
      match
        chain_createPaymentPayload (account this) x402Version requirements
          (paymasterOptionsOf this network)
      with
      | inl e => inl (ChainLibraryError e)
      | inr paymentPayload =>
          match assertStarknetTypedData paymentPayload with
          | inl e => inl e
          | inr _ =>
              inr [ ("x402Version", JsNumber x402Version);
                    ("payload", own_get paymentPayload "payload");
                    ("typedData", own_get paymentPayload "typedData");
                    ("paymasterEndpoint",
                      nullish (own_get paymentPayload "paymasterEndpoint")
                        (JsString endpoint)) ]
          end
      end
  end.

(* ===================================================================== *)
(** ** src/elysia/middleware.ts: resolving the HTTP server *)
(* ===================================================================== *)

(** What [resolveHttpServer] throws: an error of the code it calls, or
    [new Error(message)] of its own. *)
Inductive SetupThrown :=
| LibraryError (e : JsValue)
| SetupError (message : string).

(** What [resolveHttpServer] calls: [createResourceServer] of the server
    module and the constructor of the protocol library's HTTP resource
    server; [inl e] is a call that throws [e]. *)
Class ServerLib (World : Type) := {
  ResourceServer : Type;
  FacilitatorClient : Type;
  createResourceServer : FacilitatorClient → option JsValue → JsValue + ResourceServer;
  new_x402HTTPResourceServer :
    ResourceServer → RoutesConfig → JsValue + x402HTTPResourceServer World;
}.

(** The fields of [ElysiaPaymentMiddlewareConfig] that [resolveHttpServer]
    reads. *)
Record ServerSetup (World : Type) `{ServerLib World} := {
  setup_httpServer : option (x402HTTPResourceServer World);
  setup_resourceServer : option ResourceServer;
  setup_facilitatorClient : option FacilitatorClient;
  setup_serverConfig : option JsValue;
  setup_routes : option RoutesConfig;
}.
Arguments setup_httpServer {World _}.
Arguments setup_resourceServer {World _}.
Arguments setup_facilitatorClient {World _}.
Arguments setup_serverConfig {World _}.
Arguments setup_routes {World _}.

Definition resolveHttpServer {World : Type} `{ServerLib World}
    (config : ServerSetup World) : SetupThrown + x402HTTPResourceServer World :=
  match setup_httpServer config with
  | Some server => inr server
  | None =>
      match setup_routes config with
      | None => inl (SetupError "Elysia payment middleware requires routes.")
      | Some routes =>
          let resourceServer :=
            match setup_resourceServer config with
            | Some server => inr (Some server)
            | None =>
                match setup_facilitatorClient config with
                | Some client =>
                    match createResourceServer client (setup_serverConfig config) with
                    | inl e => inl e
                    | inr server => inr (Some server)
                    end
                | None => inr None
                end
            end in
          match resourceServer with
          | inl e => inl (LibraryError e)
          | inr None =>
              inl (SetupError
                     "Elysia payment middleware requires a resourceServer or facilitatorClient.")
          | inr (Some server) =>
              match new_x402HTTPResourceServer server routes with
              | inl e => inl (LibraryError e)
              | inr httpServer => inr httpServer
              end
          end
      end
  end.

(* ===================================================================== *)
(** ** src/starknet/exact/client.ts: construction and registration *)
(* ===================================================================== *)

(** Whether a value is truthy; numbers are integers here, so there is no
    [NaN]. *)
Definition truthy (v : JsValue) : bool :=
  match v with
  | JsUndefined | JsNull => false
  | JsBoolean b => b
  | JsNumber n | JsBigInt n => negb (n =? 0)%Z
  | JsString s => negb (String.eqb s "")
  | _ => true
  end.

(** [ExactStarknetClientSchemeConfig]. *)
Record ExactStarknetClientSchemeConfig := {
  config_account : JsValue;
  config_paymasterEndpoint : option NetworkOverride;
  config_paymasterApiKey : option NetworkOverride;
}.

(** [new ExactStarknetClientScheme(config)]. *)
Definition new_ExactStarknetClientScheme (config : ExactStarknetClientSchemeConfig)
    : Thrown + ExactStarknetClientScheme :=
  if negb (truthy (config_account config))
  then inl (Error "Starknet account is required.")
  else inr {| account := config_account config;
              paymasterEndpoint := config_paymasterEndpoint config;
              paymasterApiKey := config_paymasterApiKey config |}.

(** The string that a [StarknetNetworkId] is. *)
Definition networkName (network : StarknetNetworkId) : string :=
  match network with
  | starknet_mainnet => "starknet:mainnet"
  | starknet_sepolia => "starknet:sepolia"
  end.

Definition DEFAULT_STARKNET_CLIENT_NETWORKS : list StarknetNetworkId :=
  [ starknet_mainnet; starknet_sepolia ].

(** [StarknetNetworkId | StarknetNetworkId[]]. *)
Inductive NetworksOption :=
| OneNetwork (network : StarknetNetworkId)
| ManyNetworks (networks : list StarknetNetworkId).

(** [ExactStarknetClientConfig]: the scheme configuration and
    [networks]. *)
Record ExactStarknetClientConfig := {
  scheme_config : ExactStarknetClientSchemeConfig;
  networks : option NetworksOption;
}.

(** What [registerExactStarknetClientScheme] throws: what
    [client.register] threw, or what the constructor threw. *)
Inductive RegisterThrown :=
| ClientError (e : JsValue)
| SchemeError (e : Thrown).

(** The loop over [registerNetworks].  [register] is [client.register]
    over the state [C] of the client: it yields the error it throws, if
    any, and the state it leaves. *)
Fixpoint registerEach {C : Type}
    (register : string → ExactStarknetClientScheme → C → option JsValue * C)
    (scheme : ExactStarknetClientScheme) (registerNetworks : list StarknetNetworkId)
    (client : C) : option JsValue * C :=
  match registerNetworks with
  | [] => (None, client)
  | network :: rest =>
      match register (networkName network) scheme client with
      | (Some e, client') => (Some e, client')
      | (None, client') => registerEach register scheme rest client'
      end
  end.

Definition registerExactStarknetClientScheme {C : Type}
    (register : string → ExactStarknetClientScheme → C → option JsValue * C)
    (config : ExactStarknetClientConfig) (client : C)
    : (RegisterThrown + ExactStarknetClientScheme) * C :=
  match new_ExactStarknetClientScheme (scheme_config config) with
  | inl e => (inl (SchemeError e), client)
  | inr scheme =>
      let registerNetworks :=
        match networks config with
        | Some (ManyNetworks networks) => networks
        | Some (OneNetwork network) => [network]
        | None => DEFAULT_STARKNET_CLIENT_NETWORKS
        end in
      match registerEach register scheme registerNetworks client with
      | (Some e, client') => (inl (ClientError e), client')
      | (None, client') => (inr scheme, client')
      end
  end.

(* ===================================================================== *)
(** ** A concrete realm, library and configuration *)
(* ===================================================================== *)

Module Sample.

(** [s] up to the first character satisfying [stop], and the rest. *)
Fixpoint breakAt (stop : ascii → bool) (s : string) : string * string :=
  match s with
  | "" => ("", "")
  | String c s' =>
      if stop c then ("", s)
      else let (before, after) := breakAt stop s' in (String c before, after)
  end.

Fixpoint splitOn (sep : ascii) (s : string) (piece : string) : list string :=
  match s with
  | "" => [piece]
  | String c s' =>
      if Ascii.eqb c sep then piece :: splitOn sep s' ""
      else splitOn sep s' (piece +:+ String c "")
  end.

Definition isOneOf (chars : string) (c : ascii) : bool :=
  bool_decide (c ∈ String.list_ascii_of_string chars).

(** The URL parser on the URLs of the examples: scheme, authority, path
    and query, with nothing to decode. *)
Definition parseURL (input : string) (base : option string) : URL :=
  let afterScheme :=
    if JsString.startsWith input "http://" then Some (JsString.sliceFrom 7 input)
    else if JsString.startsWith input "https://" then Some (JsString.sliceFrom 8 input)
    else None in
  let fromPath :=
    match afterScheme with
    | Some rest => snd (breakAt (isOneOf "/?#") rest)
    | None => input
    end in
  let (rawPath, afterPath) := breakAt (isOneOf "?#") fromPath in
  let query :=
    if JsString.startsWith afterPath "?"
    then fst (breakAt (isOneOf "#") (JsString.sliceFrom 1 afterPath))
    else "" in
  {| pathname := normalizePathCandidate rawPath;
     searchParams :=
       map (λ piece,
              let (key, value) := breakAt (isOneOf "=") piece in
              (key, JsString.sliceFrom 1 value))
           (filter (λ piece, piece ≠ "") (splitOn "&" query "")) |}.

Definition arrayPrototypeNames : list string :=
  [ "at"; "concat"; "constructor"; "copyWithin"; "entries"; "every"; "fill";
    "filter"; "find"; "findIndex"; "findLast"; "findLastIndex"; "flat";
    "flatMap"; "forEach"; "includes"; "indexOf"; "join"; "keys";
    "lastIndexOf"; "map"; "pop"; "push"; "reduce"; "reduceRight"; "reverse";
    "shift"; "slice"; "some"; "sort"; "splice"; "toLocaleString";
    "toReversed"; "toSorted"; "toSpliced"; "toString"; "unshift"; "values";
    "with" ].

#[global] Instance realm : Realm := {|
  new_URL := parseURL;
  ArrayPrototype_has := λ key, bool_decide (key ∈ arrayPrototypeNames);
|}.

(** The outside world of the examples counts the calls made so far. *)
Definition World := nat.

Definition exactRequirements : PlainObject :=
  [ ("scheme", JsString "exact"); ("network", JsString "starknet:sepolia") ].
Definition uptoRequirements : PlainObject :=
  [ ("scheme", JsString "upto"); ("network", JsString "eip155:8453") ].
Definition somePayload : PlainObject :=
  [ ("x402Version", JsNumber 2); ("payload", JsObject []) ].

Definition paymentRequired : HTTPResponseInstructions :=
  {| resp_status := 402;
     resp_headers := {[ "payment-required" := "e30=" ]};
     resp_body := JsObject [ ("error", JsString "Payment required") ] |}.

(** A server that decides by the path it is asked about. *)
Definition server : x402HTTPResourceServer World :=
  {| processHTTPRequest := λ context _ w,
       (if String.eqb (ctx_path context) "/api/paid"
        then PaymentVerified somePayload exactRequirements
        else if String.eqb (ctx_path context) "/api/metered"
        then PaymentVerified somePayload uptoRequirements
        else if String.eqb (ctx_path context) "/api/locked"
        then PaymentError paymentRequired
        else NoPaymentRequired, S w);
     processSettlement := λ _ _ w,
       (SettleSuccess {[ "payment-response" := "c2V0dGxlZA==" ]}, S w) |}.

#[global] Instance uptoLib : UptoLib World := {|
  trackUptoPayment := λ _ _ _ w, (TrackingSuccess "session-1", S w);
  TRACKING_ERROR_STATUS := λ _, 402%Z;
  TRACKING_ERROR_MESSAGES := λ error, error;
|}.

Definition config : ElysiaPaymentMiddlewareConfig World :=
  {| httpServer := server;
     routes := Some [ "GET /api/paid"; "GET /api/metered"; "GET /api/locked" ];
     paywallConfig := None;
     paymentHeaderAliases := None;
     autoSettle := None;
     upto := Some {| upto_store := 0; upto_autoTrack := None |} |}.

Definition get (url : string) (headers : Headers) : ElysiaRequestContext :=
  {| request := {| req_url := url; req_method := "GET"; req_headers := headers |};
     body := JsUndefined;
     path := None;
     route := None |}.

Definition initial : Store World :=
  {| world := 0; trace := [];
     set := {| set_status := None; set_headers := Some ∅ |};
     x402 := None |}.

Definition routeHandler : World → JsValue * World :=
  λ w, (JsString "premium content", S w).

(** A chain library that signs nothing and echoes its options. *)
#[global] Instance starknetLib : StarknetLib := {|
  DEFAULT_PAYMASTER_ENDPOINTS := λ network,
    match network with
    | starknet_mainnet => "https://starknet.paymaster.avnu.fi"
    | starknet_sepolia => "https://sepolia.paymaster.avnu.fi"
    end;
  validateNetwork := λ v,
    match v with
    | JsString "starknet:mainnet" => inr starknet_mainnet
    | JsString "starknet:sepolia" => inr starknet_sepolia
    | _ => inl (JsString "Unsupported network")
    end;
  chain_createPaymentPayload := λ account version requirements options,
    match account with
    | JsNull => inr [ ("x402Version", JsNumber version); ("payload", JsObject []) ]
    | _ =>
        inr [ ("x402Version", JsNumber version);
              ("payload", JsObject []);
              ("typedData", JsObject [ ("primaryType", JsString "Transfer") ]) ]
    end;
|}.

End Sample.

(* ===================================================================== *)
(** ** Strings and insertion-ordered sets *)
(* ===================================================================== *)

(** Further instances: an upto module that rejects, a server module, and
    a client that records its registrations. *)
Module Cases.

Definition rejectingUptoLib : UptoLib Sample.World := {|
  trackUptoPayment := λ _ _ _ w,
    (TrackingFailure "cap_exhausted" (Some "session-1"), S w);
  TRACKING_ERROR_STATUS := λ _, 402%Z;
  TRACKING_ERROR_MESSAGES := λ error, "Upto session rejected: " +:+ error;
|}.

#[global] Instance serverLib : ServerLib Sample.World := {|
  ResourceServer := nat;
  FacilitatorClient := string;
  createResourceServer := λ client _,
    if String.eqb client "" then inl (JsString "invalid facilitator") else inr 0;
  new_x402HTTPResourceServer := λ _ _, inr Sample.server;
|}.

(** A server whose payment-error response has no body, and a
    configuration with it. *)
Definition bodylessError : HTTPResponseInstructions :=
  {| resp_status := 402;
     resp_headers := {[ "payment-required" := "e30=" ]};
     resp_body := JsUndefined |}.

Definition bodylessServer : x402HTTPResourceServer Sample.World :=
  {| processHTTPRequest := λ context _ w,
       (if String.eqb (ctx_path context) "/api/locked"
        then PaymentError bodylessError
        else NoPaymentRequired, S w);
     processSettlement := λ _ _ w, (SettleFailure "unused", S w) |}.

Definition bodylessConfig : ElysiaPaymentMiddlewareConfig Sample.World :=
  {| httpServer := bodylessServer;
     routes := Some [ "GET /api/locked" ];
     paywallConfig := None;
     paymentHeaderAliases := None;
     autoSettle := None;
     upto := None |}.

(** The sample configuration with two payment header aliases. *)
Definition aliasedConfig : ElysiaPaymentMiddlewareConfig Sample.World :=
  {| httpServer := Sample.server;
     routes := routes Sample.config;
     paywallConfig := None;
     paymentHeaderAliases := Some [ "x-pay"; "x-payment" ];
     autoSettle := None;
     upto := None |}.

Definition recordingRegister (name : string) (scheme : ExactStarknetClientScheme)
    (client : list string) : option JsValue * list string :=
  (None, client ++ [name]).

End Cases.

(* ===================================================================== *)
(** ** Notions used to state the properties *)
(* ===================================================================== *)

(** The candidates that come from the request itself: the pathname of the
    request URL, and [ctx.path] and [ctx.route] when they are non-empty
    strings, each normalized. *)
Definition requestCandidate `{Realm} (ctx : ElysiaRequestContext) (c : string)
    : Prop :=
  c = normalizePathCandidate (pathname (resolveUrl (request ctx)))
  ∨ (∃ p, path ctx = Some p ∧ p ≠ "" ∧ c = normalizePathCandidate p)
  ∨ (∃ r, route ctx = Some r ∧ r ≠ "" ∧ c = normalizePathCandidate r).

(** The values that the query string gives [key], in their order of
    occurrence, and what a map from query keys to values holds for them:
    nothing, the single value, or the array of all the values. *)
Definition queryValues (key : string) (entries : list (string * string))
    : list string :=
  snd <$> filter (λ entry, fst entry = key) entries.

Definition queryParamOf (values : list string) : JsValue :=
  match values with
  | [] => JsUndefined
  | [value] => JsString value
  | _ => JsArray (JsString <$> values)
  end.

(** The calls of [processHTTPRequest] for the paths of [made], one after
    the other from the world [w], with the results paired with the paths,
    ending in the world [w']. *)
Inductive callsFrom {World : Type} (server : x402HTTPResourceServer World)
    (adapter : HTTPAdapter) (paywall : option JsValue)
    : World → list (string * HTTPProcessResult) → World → Prop :=
| callsFrom_nil w : callsFrom server adapter paywall w [] w
| callsFrom_cons w candidate attempt w' made w'' :
    processHTTPRequest server
      {| ctx_adapter := adapter; ctx_path := candidate;
         ctx_method := getMethod adapter |} paywall w = (attempt, w') →
    callsFrom server adapter paywall w' made w'' →
    callsFrom server adapter paywall w ((candidate, attempt) :: made) w''.

Definition callEvent (made : string * HTTPProcessResult) : Event :=
  ProcessHTTPRequestCall (fst made) (snd made).

Definition notRequired (made : string * HTTPProcessResult) : Prop :=
  snd made = NoPaymentRequired.

(** Whether the before-handle hook tracks an upto payment for the result
    [r] of the payment check, and whether the after-handle hook settles
    the payment of the state [state]. *)
Definition tracksUpto {World} (config : ElysiaPaymentMiddlewareConfig World)
    (r : HTTPProcessResult) : bool :=
  match r with
  | PaymentVerified _ paymentRequirements =>
      schemeIsUpto paymentRequirements
      && bool_decide (is_Some (upto config))
      && autoTrackOf config
  | _ => false
  end.

Definition settles {World} (config : ElysiaPaymentMiddlewareConfig World)
    (state : option ElysiaPaymentState) : bool :=
  match result <$> state with
  | Some (PaymentVerified _ paymentRequirements) =>
      negb (schemeIsUpto paymentRequirements) && autoSettleOf config
  | _ => false
  end.

(** [ctx.set] after [status] was assigned and [headers] merged in. *)
Definition answered (current : ElysiaSet) (status : Z)
    (headers : gmap string string) : ElysiaSet :=
  {| set_status := Some status;
     set_headers := Some (mergeHeaders (set_headers current) headers) |}.

Definition withHeaders (current : ElysiaSet) (headers : gmap string string)
    : ElysiaSet :=
  {| set_status := set_status current;
     set_headers := Some (mergeHeaders (set_headers current) headers) |}.

(** Every call of the upto tracking in the trace [events] comes after the
    route handler has run. *)
Definition trackingAfterHandler (events : list Event) : Prop :=
  ∀ before e after,
    events = before ++ e :: after →
    isTrackUptoPaymentCall e = true →
    RouteHandlerCall ∈ before.

(** Whatever the before-handle hook returns as [returned], with [state]
    in [ctx.x402], is the body of a payment-error response that the
    library returned. *)
Definition answersWithLibraryVerdict (returned : option JsValue)
    (state : option ElysiaPaymentState) : Prop :=
  ∀ body,
    returned = Some body →
    ∃ response,
      result <$> state = Some (PaymentError response)
      ∧ body = resp_body response.

(** The response headers [after] are the headers [before] with the
    headers [added] merged in: a header of [added] wins, every other
    header is as before. *)
Definition headersMerged (before after : ElysiaSet)
    (added : gmap string string) : Prop :=
  ∃ headers,
    set_headers after = Some headers
    ∧ ∀ name,
        headers !! name
        = match added !! name with
          | Some value => Some value
          | None => default ∅ (set_headers before) !! name
          end.

(** An object that is neither [null] nor an array. *)
Definition isObjectValue (v : JsValue) : Prop :=
  match v with
  | JsObject _ | JsIntrinsic _ => True
  | _ => False
  end.

(** [alias] is the first of [aliases] that the request carries, with value
    [v]. *)
Definition firstPresentAlias (h : Headers) (aliases : list string)
    (alias v : string) : Prop :=
  ∃ before after,
    aliases = before ++ alias :: after
    ∧ (∀ a, a ∈ before → Headers_get h a = None)
    ∧ Headers_get h alias = Some v.

(** What the inner loop of [expandPathCandidates] adds for the prefix
    [prefix] and the base candidate [c]. *)
Definition expansion (prefix c x : string) : Prop :=
  (JsString.startsWith c prefix = false
   ∧ x = normalizePathCandidate (prefix +:+ c))
  ∨ (JsString.startsWith c prefix = true
     ∧ x = normalizePathCandidate
             (if String.eqb (JsString.sliceFrom (String.length prefix) c) ""
              then "/" else JsString.sliceFrom (String.length prefix) c)).

(** A printable ASCII character other than the space, and a string of
    such characters. *)
Definition plainChar (c : ascii) : bool :=
  (33 <=? nat_of_ascii c) && (nat_of_ascii c <=? 126).

Fixpoint plainString (s : string) : bool :=
  match s with
  | "" => true
  | String c s' => plainChar c && plainString s'
  end.

(** What [queryParams[key]] holds after the values [values] were added to
    a property that read [inherited] before the first of them. *)
Definition accumulated (inherited : JsValue) (values : list string) : JsValue :=
  match inherited, values with
  | JsUndefined, _ => queryParamOf values
  | _, [] => inherited
  | _, _ => JsArray (inherited :: (JsString <$> values))
  end.

(** [client.register] succeeds for each of [names] in turn with the
    scheme [scheme], taking the client from [c] to [c']. *)
Inductive registered {C : Type}
    (register : string → ExactStarknetClientScheme → C → option JsValue * C)
    (scheme : ExactStarknetClientScheme) : C → list string → C → Prop :=
| registered_nil c : registered register scheme c [] c
| registered_cons c name c' names c'' :
    register name scheme c = (None, c') →
    registered register scheme c' names c'' →
    registered register scheme c (name :: names) c''.

#[local] Arguments Ascii.eqb : simpl never.
#[local] Arguments String.eqb : simpl never.

Section Strings.
Import JsString.

Lemma eqb_string_eq (a b : string) : String.eqb a b = true ↔ a = b.
Proof. apply String.eqb_eq. Qed.

Lemma eqb_string_ne (a b : string) : String.eqb a b = false ↔ a ≠ b.
Proof. apply String.eqb_neq. Qed.

Lemma startsWith_empty s : startsWith s "" = true.
Proof. by destruct s. Qed.

Lemma startsWith_app p s : startsWith (p +:+ s) p = true.
Proof.
  induction p as [|c p IH]; simpl.
  - apply startsWith_empty.
  - by rewrite Ascii.eqb_refl, IH.
Qed.

Lemma startsWith_app_slash p s :
  startsWith p "/" = true → startsWith (p +:+ s) "/" = true.
Proof.
  destruct p as [|c p]; [discriminate|]. intros Hp.
  change (startsWith (String c (p +:+ s)) "/" = true).
  simpl in *. by rewrite startsWith_empty in *.
Qed.

Lemma sliceFrom_all s : sliceFrom 0 s = s.
Proof. by destruct s. Qed.

Lemma sliceTo_slash n s :
  startsWith s "/" = true → startsWith (sliceTo (S n) s) "/" = true.
Proof.
  destruct s as [|c s]; [discriminate|]. simpl.
  by rewrite !startsWith_empty.
Qed.

Lemma stripTrailingSlashes_slash s :
  startsWith s "/" = true →
  stripTrailingSlashes s = "" ∨ startsWith (stripTrailingSlashes s) "/" = true.
Proof.
  destruct s as [|c s]; [by left|].
  intros Hs. cbn [stripTrailingSlashes].
  destruct (onlySlashes (String c s)); [by left|right].
  simpl in *. by rewrite startsWith_empty in *.
Qed.

Lemma normalizePathCandidate_slash s :
  startsWith (normalizePathCandidate s) "/" = true.
Proof.
  unfold normalizePathCandidate.
  destruct (startsWith s "/") eqn:E; [done|].
  change ("/" +:+ s) with (String "/" s). simpl.
  apply startsWith_empty.
Qed.

Lemma normalizePathCandidate_id s :
  startsWith s "/" = true → normalizePathCandidate s = s.
Proof. unfold normalizePathCandidate. by intros ->. Qed.

Lemma normalizePathCandidate_nonempty s : normalizePathCandidate s ≠ "".
Proof.
  pose proof (normalizePathCandidate_slash s) as H.
  by destruct (normalizePathCandidate s).
Qed.

(** A static prefix is empty or starts with a slash. *)
Lemma getStaticPrefix_slash pattern :
  getStaticPrefix pattern = "" ∨ startsWith (getStaticPrefix pattern) "/" = true.
Proof.
  unfold getStaticPrefix.
  set (staticPath := match searchWildcard pattern with
                     | Some i => sliceTo i pattern | None => pattern end).
  destruct (stripTrailingSlashes_slash (normalizePathCandidate staticPath))
    as [-> | Hs]; [apply normalizePathCandidate_slash | by left |].
  destruct (lastIndexOfSlash _) as [[|n]|]; [by left | | by left].
  right. by apply sliceTo_slash.
Qed.

Lemma normalizePrefix_slash pattern :
  normalizePrefix (getStaticPrefix pattern) = ""
  ∨ startsWith (normalizePrefix (getStaticPrefix pattern)) "/" = true.
Proof.
  unfold normalizePrefix.
  destruct (String.eqb _ "/"); [by left|].
  destruct (getStaticPrefix_slash pattern) as [-> | Hs]; [by left|].
  by apply stripTrailingSlashes_slash.
Qed.

Lemma elem_of_Set_add (s : list string) x y :
  x ∈ Set_add s y ↔ x ∈ s ∨ x = y.
Proof.
  unfold Set_add. case_bool_decide as Hy.
  - split; [by left | intros [?| ->]; done].
  - rewrite elem_of_app, list_elem_of_singleton. done.
Qed.

Lemma elem_of_foldl_Set_add (acc xs : list string) x :
  x ∈ foldl Set_add acc xs ↔ x ∈ acc ∨ x ∈ xs.
Proof.
  revert acc. induction xs as [|y xs IH]; intros acc; simpl.
  - rewrite elem_of_nil. tauto.
  - rewrite IH, elem_of_Set_add, elem_of_cons. tauto.
Qed.

Lemma elem_of_Set_of (xs : list string) x : x ∈ Set_of xs ↔ x ∈ xs.
Proof.
  unfold Set_of. rewrite elem_of_foldl_Set_add, elem_of_nil. tauto.
Qed.
End Strings.

(* ===================================================================== *)
(** ** Path candidates *)
(* ===================================================================== *)

Section PathCandidates.
Import JsString.
Context {realm : Realm}.

(** A fold whose step only ever adds elements keeps what it has, and
    holds what the step for one of its inputs adds. *)
Lemma foldl_keeps {A} (f : list string → A → list string) (l : list A) cs x :
  (∀ cs a, x ∈ cs → x ∈ f cs a) → x ∈ cs → x ∈ foldl f cs l.
Proof.
  intros Hmono. revert cs. induction l as [|a l IH]; intros cs Hx; simpl; auto.
Qed.

Lemma foldl_adds {A} (f : list string → A → list string) (l : list A) a cs x :
  (∀ cs a, x ∈ cs → x ∈ f cs a) → (∀ cs, x ∈ f cs a) → a ∈ l →
  x ∈ foldl f cs l.
Proof.
  intros Hmono Hadd. revert cs.
  induction l as [|b l IH]; intros cs Ha; [by apply elem_of_nil in Ha|].
  apply elem_of_cons in Ha as [<- | Ha]; simpl.
  - by apply foldl_keeps.
  - by apply IH.
Qed.

Lemma expandStep_keeps prefix cs c x : x ∈ cs → x ∈ expandStep prefix cs c.
Proof.
  intros Hx. unfold expandStep.
  destruct (startsWith c prefix); simpl;
    [apply elem_of_Set_add; by left|].
  apply elem_of_Set_add; by left.
Qed.

Lemma expandStep_prepends prefix cs c :
  startsWith c prefix = false →
  normalizePathCandidate (prefix +:+ c) ∈ expandStep prefix cs c.
Proof.
  intros Hc. unfold expandStep. rewrite Hc. simpl.
  apply elem_of_Set_add. by right.
Qed.

Lemma expandStep_strips prefix cs c :
  startsWith c prefix = true →
  normalizePathCandidate
    (if String.eqb (sliceFrom (String.length prefix) c) "" then "/"
     else sliceFrom (String.length prefix) c)
  ∈ expandStep prefix cs c.
Proof.
  intros Hc. unfold expandStep. rewrite Hc. simpl.
  apply elem_of_Set_add. by right.
Qed.

Lemma expandPathCandidates_base base patterns c :
  c ∈ base → c ∈ expandPathCandidates base patterns.
Proof.
  intros Hc. unfold expandPathCandidates. apply foldl_keeps.
  - intros cs prefix Hx. apply foldl_keeps; [|done].
    intros ???. by apply expandStep_keeps.
  - by apply elem_of_Set_of.
Qed.

Lemma expandPathCandidates_step base patterns prefix c x :
  prefix ∈ collectPrefixes patterns → c ∈ base →
  (∀ cs, x ∈ expandStep prefix cs c) →
  x ∈ expandPathCandidates base patterns.
Proof.
  intros Hp Hc Hx. unfold expandPathCandidates.
  apply foldl_adds with (a := prefix); [| |done].
  - intros cs p Hcs. apply foldl_keeps; [|done].
    intros ???. by apply expandStep_keeps.
  - intros cs. apply foldl_adds with (a := c); [|done|done].
    intros ???. by apply expandStep_keeps.
Qed.

Lemma collectPrefixes_elem patterns pattern :
  pattern ∈ patterns →
  normalizePrefix (getStaticPrefix pattern) ≠ "" →
  normalizePrefix (getStaticPrefix pattern) ∈ collectPrefixes patterns.
Proof.
  intros Hin Hne. unfold collectPrefixes.
  apply foldl_adds with (a := pattern); [| |done].
  - intros cs a Hcs.
    destruct (String.eqb a "*"); [done|].
    destruct (String.eqb _ ""); [done|].
    apply elem_of_Set_add. by left.
  - intros cs.
    destruct (String.eqb pattern "*") eqn:Estar.
    { apply eqb_string_eq in Estar as ->. by vm_compute in Hne. }
    destruct (String.eqb _ "") eqn:Eempty.
    { by apply eqb_string_eq in Eempty. }
    apply elem_of_Set_add. by right.
Qed.

Lemma elem_of_getPathCandidates ctx fallback c :
  c ∈ getPathCandidates ctx fallback ↔
    c = normalizePathCandidate fallback ∨ requestCandidate ctx c.
Proof.
  unfold getPathCandidates, requestCandidate, nonEmptyString.
  destruct (path ctx) as [p|], (route ctx) as [r|];
    repeat match goal with
           | |- context [String.eqb ?a ""] =>
               let E := fresh "E" in
               destruct (String.eqb a "") eqn:E;
               [apply eqb_string_eq in E | apply eqb_string_ne in E]
           end;
    rewrite ?elem_of_Set_add, elem_of_nil; naive_solver.
Qed.

Lemma getPath_requestCandidate ctx aliases :
  requestCandidate ctx (normalizePathCandidate (getPath (createAdapter ctx aliases))).
Proof.
  unfold requestCandidate, createAdapter, nonEmptyString; simpl.
  destruct (path ctx) as [p|]; [|by left].
  destruct (String.eqb p "") eqn:E; [by left|].
  apply eqb_string_ne in E. right; left. exists p.
  by rewrite (normalizePathCandidate_id _ (normalizePathCandidate_slash p)).
Qed.

Lemma requestCandidate_slash ctx c :
  requestCandidate ctx c → startsWith c "/" = true.
Proof.
  intros [-> | [(p & _ & _ & ->) | (r & _ & _ & ->)]];
    apply normalizePathCandidate_slash.
Qed.
End PathCandidates.

Section PathCandidatesOfRequest.
Import JsString.
Context {realm : Realm} {World : Type}.

Lemma requestCandidate_elem
    (config : ElysiaPaymentMiddlewareConfig World) (ctx : ElysiaRequestContext) c :
  requestCandidate ctx c → c ∈ pathCandidatesOf config ctx.
Proof.
  intros Hc. apply expandPathCandidates_base.
  apply elem_of_getPathCandidates. by right.
Qed.

(** C3, as amended.  The candidate paths of a request contain the
    pathname parsed from the request URL, [ctx.path] and [ctx.route]
    when they are non-empty strings, each normalized to start with "/",
    and, for every static prefix extracted from a configured route
    pattern and each of those candidates, the prefix followed by the
    candidate when the candidate does not start with the prefix, and
    otherwise what is left of the candidate after the prefix, normalized
    to start with "/", with "/" standing in for an empty remainder. *)
Theorem pathCandidates_contents
    (config : ElysiaPaymentMiddlewareConfig World) (ctx : ElysiaRequestContext) :
  let candidates := pathCandidatesOf config ctx in
  let url := resolveUrl (request ctx) in
  (∀ c, requestCandidate ctx c → c ∈ candidates)
  ∧ (startsWith (pathname url) "/" = true → pathname url ∈ candidates)
  ∧ (∀ pattern c,
       pattern ∈ routePatternsOf config →
       requestCandidate ctx c →
       let prefix := normalizePrefix (getStaticPrefix pattern) in
       let rest := sliceFrom (String.length prefix) c in
       (startsWith c prefix = false → prefix +:+ c ∈ candidates)
       ∧ (startsWith c prefix = true →
          normalizePathCandidate (if String.eqb rest "" then "/" else rest)
          ∈ candidates)).
Proof.
  intros candidates url.
  assert (Hbase : ∀ c, requestCandidate ctx c → c ∈ candidates)
    by apply requestCandidate_elem.
  split; [done|]. split.
  { intros Hslash. apply Hbase. left.
    by rewrite normalizePathCandidate_id. }
  intros pattern c Hpattern Hc prefix rest.
  assert (Hin : c ∈ getPathCandidates ctx
                      (getPath (createAdapter ctx (aliasesOf config)))).
  { apply elem_of_getPathCandidates. by right. }
  destruct (decide (prefix = "")) as [Hempty | Hne].
  - subst rest. rewrite Hempty. simpl. rewrite startsWith_empty, ?sliceFrom_all.
    split; [done|]. intros _.
    pose proof (requestCandidate_slash _ _ Hc) as Hslash.
    destruct (String.eqb c "") eqn:E.
    { apply eqb_string_eq in E. subst c. discriminate. }
    rewrite normalizePathCandidate_id by done. by apply Hbase.
  - pose proof (collectPrefixes_elem _ _ Hpattern Hne) as Hprefix.
    split; intros Hstarts.
    + destruct (normalizePrefix_slash pattern) as [? | Hslash]; [done|].
      rewrite <- (normalizePathCandidate_id (prefix +:+ c))
        by by apply startsWith_app_slash.
      apply expandPathCandidates_step with (prefix := prefix) (c := c);
        [done..|].
      intros cs. by apply expandStep_prepends.
    + apply expandPathCandidates_step with (prefix := prefix) (c := c);
        [done..|].
      intros cs. by apply expandStep_strips.
Qed.
End PathCandidatesOfRequest.

(** The candidates of [GET http://localhost/paid] under the sample routes:
    the pathname, and the pathname behind the static prefix "/api" of the
    route pattern "/api/paid". *)
Lemma pathCandidates_contents_witness :
  "/paid" ∈ pathCandidatesOf Sample.config (Sample.get "http://localhost/paid" [])
  ∧ "/api/paid" ∈ pathCandidatesOf Sample.config (Sample.get "http://localhost/paid" []).
Proof.
  destruct (pathCandidates_contents Sample.config
              (Sample.get "http://localhost/paid" [])) as (Hbase & _ & Hprefix).
  split.
  - apply Hbase. left. reflexivity.
  - apply (Hprefix "/api/paid" "/paid").
    + vm_compute. apply list_elem_of_here.
    + left. reflexivity.
    + reflexivity.
Defined.

(** C3 as stated fails where a candidate is the prefix itself: for
    [GET http://localhost/api] and the route pattern "/api/paid", the
    candidate "/api" starts with the static prefix "/api", what is left
    after stripping it is the empty string, and the empty string is not
    among the candidates (which are "/api" and "/"). *)
Lemma pathCandidates_stripped_counterexample :
  let config := Sample.config in
  let ctx := Sample.get "http://localhost/api" [] in
  let prefix := normalizePrefix (getStaticPrefix "/api/paid") in
  "/api/paid" ∈ routePatternsOf config
  ∧ requestCandidate ctx "/api"
  ∧ prefix = "/api"
  ∧ JsString.startsWith "/api" prefix = true
  ∧ JsString.sliceFrom (String.length prefix) "/api" = ""
  ∧ pathCandidatesOf config ctx = ["/api"; "/"]
  ∧ JsString.sliceFrom (String.length prefix) "/api" ∉ pathCandidatesOf config ctx.
Proof.
  repeat split; try reflexivity.
  - vm_compute. apply list_elem_of_here.
  - by left.
  - vm_compute. intros Hin.
    repeat (apply elem_of_cons in Hin as [Hin | Hin]; [discriminate|]).
    by apply elem_of_nil in Hin.
Qed.

(* ===================================================================== *)
(** ** The HTTP adapter *)
(* ===================================================================== *)

Section Adapter.
Context {realm : Realm}.

Lemma queryValues_snoc key entries k v :
  queryValues key (entries ++ [(k, v)])
  = queryValues key entries ++ (if decide (k = key) then [v] else []).
Proof.
  unfold queryValues. rewrite filter_app, fmap_app. f_equal.
  rewrite filter_cons, filter_nil. simpl. by destruct (decide (k = key)).
Qed.

Lemma buildQueryParams_snoc entries entry :
  buildQueryParams (entries ++ [entry])
  = addQueryParam (buildQueryParams entries) entry.
Proof. unfold buildQueryParams. by rewrite foldl_app. Qed.

Lemma inheritedKey_false key :
  inheritedKey key = false →
  key ≠ "__proto__"
  ∧ ObjectPrototype_get (JsIntrinsic "Object.prototype") key = JsUndefined.
Proof.
  unfold inheritedKey, ObjectPrototype_get.
  intros [Hproto Hmethod]%orb_false_iff.
  rewrite Hproto, Hmethod. by apply eqb_string_ne in Hproto.
Qed.

(** The own properties of [queryParams] after the loop, when no key of
    the query string names an inherited property. *)
Lemma buildQueryParams_own entries :
  (∀ entry, entry ∈ entries → inheritedKey (fst entry) = false) →
  q_proto (buildQueryParams entries) = None
  ∧ ∀ key,
      q_own (buildQueryParams entries) !! key
      = match queryValues key entries with
        | [] => None
        | values => Some (queryParamOf values)
        end.
Proof.
  induction entries as [|[k v] entries IH] using rev_ind; intros Hkeys.
  { split; [done|]. intros key. apply lookup_empty. }
  destruct IH as [Hproto Hown].
  { intros entry Hin. apply Hkeys, elem_of_app. by left. }
  assert (Hk : inheritedKey k = false).
  { apply (Hkeys (k, v)), elem_of_app. right. apply list_elem_of_here. }
  apply inheritedKey_false in Hk as [Hne Hget].
  apply eqb_string_ne in Hne.
  rewrite buildQueryParams_snoc.
  set (q := buildQueryParams entries) in *.
  assert (Hexisting : QueryObject_get q k = queryParamOf (queryValues k entries)).
  { unfold QueryObject_get. rewrite Hown, Hproto.
    by destruct (queryValues k entries). }
  unfold addQueryParam. cbn [fst snd]. rewrite Hexisting.
  pose proof (Hown k) as Hownk.
  destruct (queryValues k entries) as [|v0 [|v1 values]] eqn:Evalues;
    cbn [queryParamOf is_undefined Array_isArray];
    unfold QueryObject_set, QueryObject_push; rewrite ?Hne, ?Hownk;
    (split; [done|]); intros key; cbn [q_own];
    rewrite queryValues_snoc.
  all: cbn [queryParamOf q_own].
  all: destruct (decide (k = key)) as [<- | Hkey].
  all: try (rewrite lookup_insert_ne, app_nil_r by done; apply Hown).
  all: rewrite lookup_insert_eq, Evalues; cbn [app fmap list_fmap]; try done.
  by rewrite fmap_app.
Qed.

(** For a query string none of whose keys names a property inherited
    from [Object.prototype], a key that occurs once maps to its value
    and a key that occurs several times maps to the array of its values
    in their order of occurrence. *)
Lemma getQueryParam_ordinary_keys ctx aliases key :
  let entries := searchParams (resolveUrl (request ctx)) in
  (∀ entry, entry ∈ entries → inheritedKey (fst entry) = false) →
  inheritedKey key = false →
  getQueryParam (createAdapter ctx aliases) key
  = queryParamOf (queryValues key entries).
Proof.
  intros entries Hkeys Hkey. cbn [createAdapter getQueryParam].
  destruct (buildQueryParams_own entries Hkeys) as [Hproto Hown].
  apply inheritedKey_false in Hkey as [_ Hget].
  unfold QueryObject_get. fold entries. rewrite Hown, Hproto.
  by destruct (queryValues key entries).
Qed.

(** C6.  A query string whose only pair has the key "toString": the key
    occurs once, and the adapter reports for it not its value but the
    array of [Object.prototype.toString] and the value. *)
Theorem getQueryParam_inherited_key ctx aliases value :
  searchParams (resolveUrl (request ctx)) = [("toString", value)] →
  getQueryParam (createAdapter ctx aliases) "toString"
  = JsArray [JsFunction "Object.prototype.toString"; JsString value]
  ∧ getQueryParam (createAdapter ctx aliases) "toString" ≠ JsString value.
Proof.
  intros Hentries. cbn [createAdapter getQueryParam]. rewrite Hentries.
  split; [reflexivity|]. vm_compute. discriminate.
Qed.

Lemma firstAliasValue_Some h aliases v :
  firstAliasValue h aliases = Some v ↔ ∃ alias, firstPresentAlias h aliases alias v.
Proof.
  unfold firstPresentAlias. induction aliases as [|a aliases IH]; simpl.
  - split; [done|]. intros (alias & before & after & Heq & _).
    by destruct before.
  - destruct (Headers_get h a) as [va|] eqn:Ea.
    + split.
      * intros [= <-]. exists a, [], aliases. (split; [done|]); (split; [|done]).
        intros ? []%elem_of_nil.
      * intros (alias & before & after & Heq & Hbefore & Halias).
        destruct before as [|b before]; simplify_eq/=; try congruence.
        rewrite (Hbefore b) in Ea; [done|apply list_elem_of_here].
    + rewrite IH. split.
      * intros (alias & before & after & -> & Hbefore & Halias).
        exists alias, (a :: before), after. (split; [done|]); (split; [|done]).
        intros b [-> | Hb]%elem_of_cons; auto.
      * intros (alias & before & after & Heq & Hbefore & Halias).
        destruct before as [|b before]; simplify_eq/=; try congruence.
        exists alias, before, after. (split; [done|]); (split; [|done]).
        intros b' Hb'. apply Hbefore. by apply list_elem_of_further.
Qed.
End Adapter.

Lemma getQueryParam_inherited_key_witness :
  getQueryParam
    (createAdapter (Sample.get "http://localhost/api/paid?toString=1" [])
       DEFAULT_PAYMENT_HEADER_ALIASES)
    "toString"
  = JsArray [JsFunction "Object.prototype.toString"; JsString "1"]
  ∧ getQueryParam
      (createAdapter (Sample.get "http://localhost/api/paid?toString=1" [])
         DEFAULT_PAYMENT_HEADER_ALIASES)
      "toString"
    ≠ JsString "1".
Proof.
  apply (getQueryParam_inherited_key
           (Sample.get "http://localhost/api/paid?toString=1" [])
           DEFAULT_PAYMENT_HEADER_ALIASES "1").
  reflexivity.
Defined.

(* ===================================================================== *)
(** ** The Starknet client scheme *)
(* ===================================================================== *)

Section Starknet.
Context {lib : StarknetLib}.

Lemma assertStarknetTypedData_ok payload :
  isObjectValue (own_get payload "typedData") →
  assertStarknetTypedData payload = inr tt.
Proof.
  unfold assertStarknetTypedData.
  by destruct (own_get payload "typedData").
Qed.

Lemma assertStarknetTypedData_throws payload :
  ¬ isObjectValue (own_get payload "typedData") →
  assertStarknetTypedData payload = inl (Error missingTypedData).
Proof.
  unfold assertStarknetTypedData.
  by destruct (own_get payload "typedData"); simpl; intros Hno;
    try done; destruct Hno.
Qed.

(** C5.  When the chain library has built a payload,
    [createPaymentPayload] returns a payload whose [typedData] is the
    one of the chain library's payload if that is a non-null, non-array
    object, and throws the error "Starknet payment payload missing
    typedData (required)." otherwise; and it throws that error in no
    other case. *)
Theorem createPaymentPayload_typedData (this : ExactStarknetClientScheme)
    (x402Version : Z) (requirements : PlainObject) :
  (∀ network built,
     validateNetwork (own_get requirements "network") = inr network →
     chain_createPaymentPayload (account this) x402Version requirements
       (paymasterOptionsOf this network) = inr built →
     (isObjectValue (own_get built "typedData") →
      ∃ payload,
        createPaymentPayload this x402Version requirements = inr payload
        ∧ own_get payload "typedData" = own_get built "typedData")
     ∧ (¬ isObjectValue (own_get built "typedData") →
        createPaymentPayload this x402Version requirements
        = inl (Error "Starknet payment payload missing typedData (required).")))
  ∧ (∀ message,
       createPaymentPayload this x402Version requirements = inl (Error message) →
       message = "Starknet payment payload missing typedData (required)."
       ∧ ∃ network built,
           validateNetwork (own_get requirements "network") = inr network
           ∧ chain_createPaymentPayload (account this) x402Version requirements
               (paymasterOptionsOf this network) = inr built
           ∧ ¬ isObjectValue (own_get built "typedData")).
Proof.
  split.
  - intros network built Hnetwork Hbuilt. unfold createPaymentPayload.
    rewrite Hnetwork, Hbuilt. split; intros Htyped.
    + rewrite assertStarknetTypedData_ok by done. eexists. split; [done|].
      reflexivity.
    + by rewrite assertStarknetTypedData_throws.
  - intros message. unfold createPaymentPayload.
    destruct (validateNetwork _) as [e | network] eqn:Hnetwork; [done|].
    destruct (chain_createPaymentPayload _ _ _ _) as [e | built] eqn:Hbuilt;
      [done|].
    destruct (assertStarknetTypedData built) as [e | []] eqn:Hassert; [|done].
    intros [= ->].
    assert (Hno : ¬ isObjectValue (own_get built "typedData")).
    { intros Htyped. by rewrite assertStarknetTypedData_ok in Hassert. }
    rewrite assertStarknetTypedData_throws in Hassert by done.
    injection Hassert as <-. split; [done|]. by exists network, built.
Qed.

(** C9.  [resolvePaymasterEndpoint] returns the override itself when the
    override is a string; the entry of the network when the override is
    a per-network map whose entry for the network is present and
    non-empty; and the default endpoint of the network otherwise. *)
Theorem resolvePaymasterEndpoint_spec (network : StarknetNetworkId)
    (override : option NetworkOverride) :
  (∀ value,
     override = Some (OverrideString value) →
     resolvePaymasterEndpoint network override = value)
  ∧ (∀ entries entry,
       override = Some (OverrideMap entries) →
       entries network = Some entry → entry ≠ "" →
       resolvePaymasterEndpoint network override = entry)
  ∧ (override = None
     ∨ (∃ entries,
          override = Some (OverrideMap entries)
          ∧ (entries network = None ∨ entries network = Some "")) →
     resolvePaymasterEndpoint network override
     = DEFAULT_PAYMASTER_ENDPOINTS network).
Proof.
  split; [|split].
  - by intros value ->.
  - intros entries entry -> Hentry Hne. simpl. rewrite Hentry.
    apply eqb_string_ne in Hne. by rewrite Hne.
  - intros [-> | (entries & -> & [Hentry | Hentry])]; simpl;
      by rewrite ?Hentry.
Qed.
End Starknet.

(** The sample chain library builds a payload with [typedData] for a
    signing account, and one without for the account [null]. *)
Lemma createPaymentPayload_typedData_witness :
  (∃ payload,
     createPaymentPayload
       {| account := JsString "0x1"; paymasterEndpoint := None;
          paymasterApiKey := None |}
       2 Sample.exactRequirements = inr payload
     ∧ own_get payload "typedData"
       = JsObject [ ("primaryType", JsString "Transfer") ])
  ∧ createPaymentPayload
      {| account := JsNull; paymasterEndpoint := None; paymasterApiKey := None |}
      2 Sample.exactRequirements
    = inl (Error "Starknet payment payload missing typedData (required).").
Proof.
  split.
  - destruct (createPaymentPayload_typedData
                {| account := JsString "0x1"; paymasterEndpoint := None;
                   paymasterApiKey := None |}
                2 Sample.exactRequirements) as [Hbuilt _].
    destruct (Hbuilt starknet_sepolia
                [ ("x402Version", JsNumber 2); ("payload", JsObject []);
                  ("typedData", JsObject [ ("primaryType", JsString "Transfer") ]) ])
      as [Hok _]; [reflexivity | reflexivity |].
    apply Hok. exact I.
  - destruct (createPaymentPayload_typedData
                {| account := JsNull; paymasterEndpoint := None;
                   paymasterApiKey := None |}
                2 Sample.exactRequirements) as [Hbuilt _].
    destruct (Hbuilt starknet_sepolia
                [ ("x402Version", JsNumber 2); ("payload", JsObject []) ])
      as [_ Hthrows]; [reflexivity | reflexivity |].
    apply Hthrows. intros [].
Defined.

(** A per-network map with an entry for Sepolia only. *)
Lemma resolvePaymasterEndpoint_spec_witness :
  resolvePaymasterEndpoint starknet_sepolia
    (Some (OverrideMap (λ network,
             match network with
             | starknet_sepolia => Some "https://paymaster.example"
             | starknet_mainnet => None
             end)))
  = "https://paymaster.example"
  ∧ resolvePaymasterEndpoint starknet_mainnet
      (Some (OverrideMap (λ network,
               match network with
               | starknet_sepolia => Some "https://paymaster.example"
               | starknet_mainnet => None
               end)))
    = "https://starknet.paymaster.avnu.fi".
Proof.
  split.
  - destruct (resolvePaymasterEndpoint_spec starknet_sepolia
                (Some (OverrideMap (λ network,
                         match network with
                         | starknet_sepolia => Some "https://paymaster.example"
                         | starknet_mainnet => None
                         end)))) as (_ & Hentry & _).
    eapply Hentry; [reflexivity | reflexivity | discriminate].
  - destruct (resolvePaymasterEndpoint_spec starknet_mainnet
                (Some (OverrideMap (λ network,
                         match network with
                         | starknet_sepolia => Some "https://paymaster.example"
                         | starknet_mainnet => None
                         end)))) as (_ & _ & Hdefault).
    apply Hdefault. right. eexists. split; [reflexivity|]. by left.
Defined.

(* ===================================================================== *)
(** ** The two hooks and the request lifecycle *)
(* ===================================================================== *)

#[local] Arguments mergeHeaders : simpl never.

Section Lifecycle.
Context {realm : Realm} {World : Type} {uptoLib : UptoLib World}.

Implicit Types (config : ElysiaPaymentMiddlewareConfig World)
  (ctx : ElysiaRequestContext) (s : Store World).

Lemma resolvePaywallConfig_run source req s paywall s0 :
  resolvePaywallConfig source req s = (paywall, s0) →
  trace s0 = trace s ∧ set s0 = set s ∧ x402 s0 = x402 s.
Proof.
  unfold resolvePaywallConfig, callback, ret.
  destruct source as [[c | f]|]; [by intros [= <- <-]| |by intros [= <- <-]].
  destruct (f req (world s)) as [c w]. by intros [= <- <-].
Qed.

(** The loop calls the library for the candidates in order, up to and
    including the first whose result is not "no-payment-required", and
    [result] ends as the result of the last call made. *)
Lemma processCandidates_spec server adapter paywall candidates init s r s' :
  processCandidates server adapter paywall candidates init s = (r, s') →
  ∃ made skipped,
    candidates = (fst <$> made) ++ skipped
    ∧ callsFrom server adapter paywall (world s) made (world s')
    ∧ trace s' = trace s ++ (callEvent <$> made)
    ∧ set s' = set s ∧ x402 s' = x402 s
    ∧ ((∃ before candidate,
          made = before ++ [(candidate, r)]
          ∧ Forall notRequired before ∧ r ≠ NoPaymentRequired)
       ∨ (skipped = [] ∧ Forall notRequired made
          ∧ r = default init (last (snd <$> made)))).
Proof.
  revert init s. induction candidates as [|c rest IH]; intros init s; simpl.
  { intros [= <- <-]. exists [], []. split_and!; try done.
    - constructor.
    - by rewrite app_nil_r.
    - right. by repeat split. }
  unfold bind at 1, call at 1.
  destruct (processHTTPRequest server _ paywall (world s)) as [attempt w1] eqn:Hcall.
  destruct (isNoPaymentRequired attempt) eqn:Hattempt; simpl.
  - destruct attempt; try discriminate.
    intros Hrest. apply IH in Hrest
      as (made & skipped & -> & Hcalls & Htrace & Hset & Hx402 & Hshape).
    simpl in *.
    exists ((c, NoPaymentRequired) :: made), skipped. split_and!; try done.
    + by econstructor.
    + rewrite Htrace, <- app_assoc. done.
    + destruct Hshape as [(before & candidate & -> & Hbefore & Hr)
                         | (-> & Hall & ->)].
      * left. exists ((c, NoPaymentRequired) :: before), candidate.
        split_and!; try done. by constructor.
      * right. split_and!; try done; [by constructor|].
        rewrite fmap_cons, last_cons. by destruct (last (snd <$> made)).
  - intros [= <- <-]. simpl.
    exists [(c, attempt)], rest. split_and!; try done.
    + econstructor; [done|constructor].
    + left. exists [], c. split_and!; try done.
      intros ->. discriminate.
Qed.

Lemma pathCandidatesOf_nonempty config ctx : pathCandidatesOf config ctx ≠ [].
Proof.
  intros Hnil.
  eapply elem_of_nil. rewrite <- Hnil.
  apply requestCandidate_elem. by left.
Qed.

(** The payment check: what the loop of [onBeforeHandle] does for the
    candidate paths of the request. *)
Lemma paymentCheck_spec config ctx s r s1 :
  paymentCheck config ctx s = (r, s1) →
  ∃ paywall s0 made skipped,
    resolvePaywallConfig (paywallConfig config) (request ctx) s = (paywall, s0)
    ∧ pathCandidatesOf config ctx = (fst <$> made) ++ skipped
    ∧ callsFrom (httpServer config) (createAdapter ctx (aliasesOf config))
        paywall (world s0) made (world s1)
    ∧ trace s1 = trace s ++ (callEvent <$> made)
    ∧ set s1 = set s ∧ x402 s1 = x402 s
    ∧ ((∃ before candidate,
          made = before ++ [(candidate, r)]
          ∧ Forall notRequired before ∧ r ≠ NoPaymentRequired)
       ∨ (skipped = [] ∧ Forall notRequired made
          ∧ last (snd <$> made) = Some r ∧ r = NoPaymentRequired)).
Proof.
  unfold paymentCheck, bind.
  destruct (resolvePaywallConfig _ _ s) as [paywall s0] eqn:Hpaywall.
  intros Hloop.
  apply resolvePaywallConfig_run in Hpaywall as Hsame.
  destruct Hsame as (Htrace0 & Hset0 & Hx0).
  apply processCandidates_spec in Hloop
    as (made & skipped & Hcands & Hcalls & Htrace & Hset & Hx402 & Hshape).
  exists paywall, s0, made, skipped. split_and!; try done; try congruence.
  destruct Hshape as [Hstopped | (-> & Hall & Hr)]; [by left|right].
  rewrite app_nil_r in Hcands.
  assert (Hne : made ≠ []).
  { intros ->. by apply (pathCandidatesOf_nonempty config ctx). }
  destruct (last (snd <$> made)) as [r'|] eqn:Hlast.
  - simpl in Hr. subst r'. split_and!; try done.
    apply last_Some in Hlast as [l' Hl'].
    assert (Hin : r ∈ snd <$> made) by (rewrite Hl'; set_solver).
    apply list_elem_of_fmap in Hin as ([c r'] & -> & Hin).
    by apply (proj1 (Forall_forall _ _) Hall) in Hin.
  - apply last_None in Hlast. by destruct made.
Qed.

(** The before-handle hook after the payment check, when it tracks no
    upto payment. *)
Lemma onBeforeHandle_untracked config ctx s early s' r s1 :
  onBeforeHandle config ctx s = (early, s') →
  paymentCheck config ctx s = (r, s1) →
  tracksUpto config r = false →
  world s' = world s1 ∧ trace s' = trace s1
  ∧ x402 s' = Some {| result := r; tracking := None |}
  ∧ match r with
    | PaymentError response =>
        early = Some (resp_body response)
        ∧ set s' = answered (set s1) (resp_status response) (resp_headers response)
    | _ => early = None ∧ set s' = set s1
    end.
Proof.
  unfold onBeforeHandle, bind at 1. intros Hrun Hcheck. rewrite Hcheck in Hrun.
  unfold tracksUpto.
  destruct r as [|payload reqs|response]; simpl in Hrun.
  - by injection Hrun as <- <-.
  - destruct (upto config) as [uc|]; [|by injection Hrun as <- <-].
    destruct (schemeIsUpto reqs && autoTrackOf config) eqn:Hcond;
      [|by injection Hrun as <- <-].
    apply andb_true_iff in Hcond as [-> ->]. by simpl.
  - by injection Hrun as <- <-.
Qed.

(** The before-handle hook after the payment check, when it tracks an
    upto payment. *)
Lemma onBeforeHandle_tracked config ctx s early s' r s1 :
  onBeforeHandle config ctx s = (early, s') →
  paymentCheck config ctx s = (r, s1) →
  tracksUpto config r = true →
  ∃ uptoConfig paymentPayload paymentRequirements t,
    r = PaymentVerified paymentPayload paymentRequirements
    ∧ upto config = Some uptoConfig
    ∧ trackUptoPayment (upto_store uptoConfig) paymentPayload
        paymentRequirements (world s1) = (t, world s')
    ∧ trace s' = trace s1 ++ [TrackUptoPaymentCall t]
    ∧ x402 s' = Some {| result := r; tracking := Some t |}
    ∧ match t with
      | TrackingSuccess sessionId =>
          early = None
          ∧ set s' = withHeaders (set s1) {[ "x-upto-session-id" := sessionId ]}
      | TrackingFailure error sessionId =>
          early = Some (trackingErrorBody error sessionId)
          ∧ set s' = answered (set s1) (TRACKING_ERROR_STATUS error)
                       {[ "content-type" := "application/json" ]}
      end.
Proof.
  unfold onBeforeHandle, bind at 1. intros Hrun Hcheck. rewrite Hcheck in Hrun.
  unfold tracksUpto.
  destruct r as [|payload reqs|response]; [done| |done].
  intros [[Hscheme Hupto%bool_decide_eq_true]%andb_true_iff Hauto]%andb_true_iff.
  destruct Hupto as [uc Hupto]. simpl in Hrun.
  rewrite Hupto, Hscheme, Hauto in Hrun. simpl in Hrun.
  unfold bind, call in Hrun. simpl in Hrun.
  destruct (trackUptoPayment _ payload reqs (world s1)) as [t w'] eqn:Htrack.
  exists uc, payload, reqs, t.
  destruct t as [sessionId | error sessionId]; simpl in Hrun;
    injection Hrun as <- <-; simpl; by rewrite Htrack.
Qed.

(** The after-handle hook, when it settles. *)
Lemma onAfterHandle_settles config ctx s u s' :
  onAfterHandle config ctx s = (u, s') →
  settles config (x402 s) = true →
  ∃ state paymentPayload paymentRequirements settlement,
    x402 s = Some state
    ∧ result state = PaymentVerified paymentPayload paymentRequirements
    ∧ processSettlement (httpServer config) paymentPayload
        paymentRequirements (world s) = (settlement, world s')
    ∧ trace s' = trace s
                 ++ [ProcessSettlementCall paymentPayload paymentRequirements
                       settlement]
    ∧ x402 s' = x402 s
    ∧ set s' = match settlement with
               | SettleSuccess headers => withHeaders (set s) headers
               | SettleFailure _ => set s
               end.
Proof.
  unfold onAfterHandle, settles, bind at 1, get_x402.
  destruct (x402 s) as [state|] eqn:Hstate; [|done]. simpl.
  destruct (result state) as [|payload reqs|response] eqn:Hresult; [done| |done].
  intros Hrun [Hscheme%negb_true_iff Hauto]%andb_true_iff.
  rewrite Hscheme, Hauto in Hrun. simpl in Hrun.
  unfold bind, call in Hrun.
  destruct (processSettlement _ payload reqs (world s)) as [settlement w'] eqn:Hsettle.
  exists state, payload, reqs, settlement.
  destruct settlement as [headers | reason]; simpl in Hrun;
    injection Hrun as <- <-; simpl; by rewrite Hsettle.
Qed.

(** The after-handle hook, when it does not settle: it calls nothing,
    and at most puts the session id of a tracked upto payment among the
    response headers. *)
Lemma onAfterHandle_idle config ctx s u s' :
  onAfterHandle config ctx s = (u, s') →
  settles config (x402 s) = false →
  world s' = world s ∧ trace s' = trace s ∧ x402 s' = x402 s
  ∧ (set s' = set s
     ∨ ∃ state sessionId,
         x402 s = Some state
         ∧ tracking state = Some (TrackingSuccess sessionId)
         ∧ set s' = withHeaders (set s) {[ "x-upto-session-id" := sessionId ]}).
Proof.
  assert (Hsame : ∀ (u0 : unit) s0,
            (u0, s0) = (u, s') → s0 = s →
            world s' = world s ∧ trace s' = trace s ∧ x402 s' = x402 s
            ∧ (set s' = set s
               ∨ ∃ state sessionId,
                   x402 s = Some state
                   ∧ tracking state = Some (TrackingSuccess sessionId)
                   ∧ set s' = withHeaders (set s)
                                {[ "x-upto-session-id" := sessionId ]})).
  { intros u0 s0 [= _ <-] ->. repeat split. by left. }
  unfold onAfterHandle, settles, bind at 1, get_x402, ret.
  destruct (x402 s) as [state|] eqn:Hstate; simpl; [|by eauto].
  destruct (result state) as [|payload reqs|response] eqn:Hresult;
    [by eauto| |by eauto].
  destruct (schemeIsUpto reqs) eqn:Hscheme; simpl.
  - destruct (tracking state) as [[sessionId | error sessionId]|] eqn:Htracking;
      [|by eauto..].
    clear Hsame. unfold merge_set_headers. intros [= _ <-] _. simpl.
    split_and!; try done. right. by exists state, sessionId.
  - destruct (autoSettleOf config); [done|]. simpl. by eauto.
Qed.
End Lifecycle.

Section GetHeader.
Context {realm : Realm} {World : Type} {uptoLib : UptoLib World}.

(** C8.  The adapter that the middleware hands to [processHTTPRequest]
    is built with the configured payment header aliases, ["x-payment"]
    when none are configured.  Its [getHeader(name)] is the value of the
    request header [name] when the request has it.  When it has not,
    the result is the value of the first of those aliases, in their
    order, that the request has, exactly when [name] lowercases to
    "payment-signature", and [undefined] in every other case. *)
Theorem getHeader_spec (config : ElysiaPaymentMiddlewareConfig World)
    (ctx : ElysiaRequestContext) (name : string) :
  let h := req_headers (request ctx) in
  let aliases :=
    match paymentHeaderAliases config with
    | Some configured => configured
    | None => ["x-payment"]
    end in
  let adapter := createAdapter ctx aliases in
  (∀ s r s1,
     paymentCheck config ctx s = (r, s1) →
     ∃ paywall w made w',
       callsFrom (httpServer config) adapter paywall w made w'
       ∧ made ≠ []
       ∧ trace s1 = trace s ++ (callEvent <$> made))
  ∧ (∀ v, Headers_get h name = Some v → getHeader adapter name = Some v)
  ∧ (Headers_get h name = None →
     ∀ v, getHeader adapter name = Some v ↔
          JsString.toLowerCase name = "payment-signature"
          ∧ ∃ alias, firstPresentAlias h aliases alias v).
Proof.
  intros h aliases adapter.
  assert (Haliases : aliasesOf config = aliases).
  { unfold aliasesOf, aliases. by destruct (paymentHeaderAliases config). }
  split; [|split].
  - intros s r s1 Hcheck.
    destruct (paymentCheck_spec _ _ _ _ _ Hcheck)
      as (paywall & s0 & made & skipped & _ & _ & Hcalls & Htrace & _ & _
          & Hshape).
    rewrite Haliases in Hcalls.
    exists paywall, (world s0), made, (world s1). split_and!; try done.
    destruct Hshape as [(before & c & -> & _) | (_ & _ & Hlast & _)].
    + by destruct before.
    + by intros ->.
  - intros v Hdirect. subst adapter h. cbn [createAdapter getHeader].
    by rewrite Hdirect.
  - intros Hdirect v. subst adapter h. cbn [createAdapter getHeader].
    rewrite Hdirect.
    destruct (String.eqb _ "payment-signature") eqn:Ename.
    + apply eqb_string_eq in Ename. rewrite firstAliasValue_Some. tauto.
    + apply eqb_string_ne in Ename. split; [done|]. tauto.
Qed.
End GetHeader.

(** A configuration with the aliases "x-pay" and "x-payment", and a
    request that carries only "x-payment": the payment check hands the
    adapter with these aliases to the library, and asked for
    "PAYMENT-SIGNATURE" the adapter answers with the value of
    "x-payment". *)
Lemma getHeader_spec_witness :
  let ctx := Sample.get "http://localhost/api/paid" [("x-payment", "abc")] in
  let adapter := createAdapter ctx ["x-pay"; "x-payment"] in
  let run := paymentCheck Cases.aliasedConfig ctx Sample.initial in
  (∃ paywall w made w',
     callsFrom Sample.server adapter paywall w made w'
     ∧ made ≠ []
     ∧ trace (snd run) = trace Sample.initial ++ (callEvent <$> made))
  ∧ getHeader adapter "PAYMENT-SIGNATURE" = Some "abc".
Proof.
  intros ctx adapter run.
  destruct (getHeader_spec Cases.aliasedConfig ctx "PAYMENT-SIGNATURE")
    as (Hcalls & _ & Halias).
  split.
  - apply (Hcalls Sample.initial (fst run) (snd run)).
    vm_compute. reflexivity.
  - apply Halias.
    + reflexivity.
    + split; [reflexivity|].
      exists "x-payment", ["x-pay"], []. split; [reflexivity|].
      split; [|reflexivity].
      intros a Ha. apply elem_of_cons in Ha as [-> | Ha]; [reflexivity|].
      by apply elem_of_nil in Ha.
Defined.

Section LifecycleProperties.
Context {realm : Realm} {World : Type} {uptoLib : UptoLib World}.

Implicit Types (config : ElysiaPaymentMiddlewareConfig World)
  (ctx : ElysiaRequestContext) (s : Store World).

(** [mergeHeaders]: a header of [next] wins over one of [current]. *)
Lemma mergeHeaders_lookup current next (name : string) :
  mergeHeaders current next !! name
  = match next !! name with
    | Some value => Some value
    | None => default ∅ current !! name
    end.
Proof.
  unfold mergeHeaders.
  destruct (next !! name) as [value|] eqn:Hnext.
  - by apply lookup_union_Some_l.
  - by rewrite lookup_union_r.
Qed.

Lemma callsFrom_elem (server : x402HTTPResourceServer World) adapter paywall
    w made w' candidate r :
  callsFrom server adapter paywall w made w' →
  (candidate, r) ∈ made →
  ∃ w0 w1,
    processHTTPRequest server
      {| ctx_adapter := adapter; ctx_path := candidate;
         ctx_method := getMethod adapter |} paywall w0 = (r, w1).
Proof.
  induction 1 as [|w c attempt w1 made w2 Hcall _ IH]; intros Hin.
  - by apply elem_of_nil in Hin.
  - apply elem_of_cons in Hin as [[= -> ->] | Hin]; eauto.
Qed.

Lemma callEvents_process (made : list (string * HTTPProcessResult)) :
  Forall (λ e, isProcessHTTPRequestCall e = true) (callEvent <$> made).
Proof. apply Forall_fmap, Forall_true. by intros []. Qed.

Lemma settles_tracked config r t :
  tracksUpto config r = true →
  settles config (Some {| result := r; tracking := t |}) = false.
Proof.
  unfold tracksUpto, settles. simpl.
  destruct r as [|payload reqs|response]; try done.
  by intros [[-> _]%andb_true_iff _]%andb_true_iff.
Qed.

(** The before-handle hook as a whole: the calls of the payment check,
    then at most one call of the upto tracking; and it answers the
    request itself only on a payment error or a failed tracking. *)
Lemma onBeforeHandle_spec config ctx s early s2 :
  onBeforeHandle config ctx s = (early, s2) →
  ∃ r s1 made tracks trackingResult,
    paymentCheck config ctx s = (r, s1)
    ∧ made ≠ []
    ∧ trace s1 = trace s ++ (callEvent <$> made)
    ∧ trace s2 = trace s1 ++ tracks
    ∧ x402 s2 = Some {| result := r; tracking := trackingResult |}
    ∧ (if tracksUpto config r
       then ∃ t, tracks = [TrackUptoPaymentCall t] ∧ trackingResult = Some t
       else tracks = [] ∧ trackingResult = None)
    ∧ (is_Some early → settles config (x402 s2) = false).
Proof.
  intros Hrun.
  destruct (paymentCheck config ctx s) as [r s1] eqn:Hcheck.
  destruct (paymentCheck_spec _ _ _ _ _ Hcheck)
    as (paywall & s0 & made & skipped & _ & _ & _ & Htrace & _ & _ & Hshape).
  assert (Hmade : made ≠ []).
  { destruct Hshape as [(before & c & -> & _) | (_ & _ & Hlast & _)].
    - by destruct before.
    - intros ->. discriminate. }
  destruct (tracksUpto config r) eqn:Htracks.
  - destruct (onBeforeHandle_tracked _ _ _ _ _ _ _ Hrun Hcheck Htracks)
      as (uc & payload & reqs & t & -> & _ & _ & Htrace2 & Hx402 & _).
    exists (PaymentVerified payload reqs), s1, made, [TrackUptoPaymentCall t], (Some t).
    rewrite Htracks, Hx402. split_and!; try done; [by eexists|].
    intros _. by apply settles_tracked.
  - destruct (onBeforeHandle_untracked _ _ _ _ _ _ _ Hrun Hcheck Htracks)
      as (_ & Htrace2 & Hx402 & Hearly).
    exists r, s1, made, [], None.
    rewrite Htracks, Hx402, app_nil_r. split_and!; try done.
    intros [body ->].
    by destruct r as [|payload reqs|response]; destruct Hearly as [? _].
Qed.

Lemma headersMerged_withHeaders (current : ElysiaSet) added :
  headersMerged current (withHeaders current added) added.
Proof. eexists. split; [done|]. intros name. apply mergeHeaders_lookup. Qed.

Lemma headersMerged_answered (current : ElysiaSet) status added :
  headersMerged current (answered current status added) added.
Proof. eexists. split; [done|]. intros name. apply mergeHeaders_lookup. Qed.

Lemma answerOf_Some early body :
  answerOf early = Some body → early = Some body ∧ body ≠ JsUndefined.
Proof. destruct early as [[]|]; simpl; intros [= <-]; by split. Qed.

(** The request lifecycle, step by step. *)
Lemma handleRequest_run (afterHandleOnEarlyResponse : bool) config ctx
    (routeHandler : World → JsValue * World) s response s' :
  handleRequest afterHandleOnEarlyResponse config ctx routeHandler s
  = (response, s') →
  ∃ early s2,
    onBeforeHandle config ctx s = (early, s2)
    ∧ match answerOf early with
      | Some body =>
          response = body
          ∧ if afterHandleOnEarlyResponse
            then ∃ u, onAfterHandle config ctx s2 = (u, s')
            else s' = s2
      | None =>
          ∃ w3 u,
            routeHandler (world s2) = (response, w3)
            ∧ onAfterHandle config ctx
                {| world := w3; trace := trace s2 ++ [RouteHandlerCall];
                   set := set s2; x402 := x402 s2 |} = (u, s')
      end.
Proof.
  unfold handleRequest, bind at 1.
  destruct (onBeforeHandle config ctx s) as [early s2] eqn:Hbefore.
  intros Hrun. exists early, s2. split; [done|].
  destruct (answerOf early) as [body|].
  - unfold bind in Hrun. destruct afterHandleOnEarlyResponse.
    + destruct (onAfterHandle config ctx s2) as [u s3] eqn:Hafter.
      injection Hrun as <- <-. split; [done|]. by exists u.
    + by injection Hrun as <- <-.
  - unfold bind, call at 1 in Hrun.
    destruct (routeHandler (world s2)) as [answer w3].
    destruct (onAfterHandle config ctx _) as [u s3] eqn:Hafter.
    injection Hrun as <- <-. by exists w3, u.
Qed.

(** The after-handle hook on a state whose [ctx.x402] the before-handle
    hook has set: what it calls and what it does to the response. *)
Lemma onAfterHandle_spec config ctx s3 u s' r trackingResult :
  onAfterHandle config ctx s3 = (u, s') →
  x402 s3 = Some {| result := r; tracking := trackingResult |} →
  (tracksUpto config r = false → trackingResult = None) →
  x402 s' = x402 s3
  ∧ set_status (set s') = set_status (set s3)
  ∧ if settles config (x402 s3)
    then ∃ paymentPayload paymentRequirements settlement,
           r = PaymentVerified paymentPayload paymentRequirements
           ∧ processSettlement (httpServer config) paymentPayload
               paymentRequirements (world s3) = (settlement, world s')
           ∧ trace s'
             = trace s3
               ++ [ProcessSettlementCall paymentPayload paymentRequirements
                     settlement]
           ∧ match settlement with
             | SettleSuccess headers => headersMerged (set s3) (set s') headers
             | SettleFailure _ => set s' = set s3
             end
    else world s' = world s3 ∧ trace s' = trace s3
         ∧ (set s' = set s3
            ∨ ∃ sessionId,
                tracksUpto config r = true
                ∧ trackingResult = Some (TrackingSuccess sessionId)
                ∧ headersMerged (set s3) (set s')
                    {[ "x-upto-session-id" := sessionId ]}).
Proof.
  intros Hafter Hx402 Huntracked.
  destruct (settles config (x402 s3)) eqn:Hsettles.
  - destruct (onAfterHandle_settles _ _ _ _ _ Hafter Hsettles)
      as (state & payload & reqs & settlement & Hstate & Hresult & Hcall
          & Htrace & Hx & Hset).
    rewrite Hx402 in Hstate. injection Hstate as <-. simpl in Hresult.
    split; [done|]. split.
    { rewrite Hset. by destruct settlement. }
    exists payload, reqs, settlement. split_and!; try done.
    destruct settlement; [|done]. rewrite Hset. apply headersMerged_withHeaders.
  - destruct (onAfterHandle_idle _ _ _ _ _ Hafter Hsettles)
      as (Hw & Htrace & Hx & [Hset | (state & sessionId & Hstate & Htracking & Hset)]).
    + split; [done|]. split; [by rewrite Hset|]. split_and!; try done. by left.
    + rewrite Hx402 in Hstate. injection Hstate as <-. simpl in Htracking.
      split; [done|]. split; [by rewrite Hset|]. split_and!; try done. right.
      exists sessionId. split_and!; try done.
      * destruct (tracksUpto config r); [done|].
        rewrite Huntracked in Htracking; done.
      * rewrite Hset. apply headersMerged_withHeaders.
Qed.

(** C1, as amended.  For every request the middleware performs the
    payment check, the calls of [processHTTPRequest], and the tracking
    of an upto payment in the pre-handler phase, before the route
    handler runs, and performs the settlement in the post-handler phase,
    after the route handler has produced its response; after the route
    handler, an upto payment only has its session id put among the
    response headers.  [returned] and [s2] are what the before-handle
    hook returns and the state it leaves. *)
Theorem handleRequest_phases (afterHandleOnEarlyResponse : bool) config ctx
    (routeHandler : World → JsValue * World) s response s' :
  handleRequest afterHandleOnEarlyResponse config ctx routeHandler s
  = (response, s') →
  ∃ checks tracks handled settlements r trackingResult returned s2,
    trace s' = trace s ++ checks ++ tracks ++ handled ++ settlements
    ∧ checks ≠ []
    ∧ Forall (λ e, isProcessHTTPRequestCall e = true) checks
    ∧ x402 s' = Some {| result := r; tracking := trackingResult |}
    ∧ (if tracksUpto config r
       then ∃ t, tracks = [TrackUptoPaymentCall t] ∧ trackingResult = Some t
       else tracks = [])
    ∧ (handled = [RouteHandlerCall] ∨ handled = [])
    ∧ onBeforeHandle config ctx s = (returned, s2)
    ∧ set_status (set s') = set_status (set s2)
    ∧ (if settles config (x402 s')
       then handled = [RouteHandlerCall]
            ∧ ∃ paymentPayload paymentRequirements settlement,
                r = PaymentVerified paymentPayload paymentRequirements
                ∧ settlements
                  = [ProcessSettlementCall paymentPayload paymentRequirements
                       settlement]
                ∧ match settlement with
                  | SettleSuccess headers =>
                      headersMerged (set s2) (set s') headers
                  | SettleFailure _ => set s' = set s2
                  end
       else settlements = []
            ∧ (set s' = set s2
               ∨ ∃ sessionId,
                   tracksUpto config r = true
                   ∧ trackingResult = Some (TrackingSuccess sessionId)
                   ∧ headersMerged (set s2) (set s')
                       {[ "x-upto-session-id" := sessionId ]})).
Proof.
  intros Hrun.
  apply handleRequest_run in Hrun as (early & s2 & Hbefore & Hrest).
  destruct (onBeforeHandle_spec _ _ _ _ _ Hbefore)
    as (r & s1 & made & tracks & trackingResult & _ & Hmade & Htrace1
        & Htrace2 & Hx402 & Htracks & Hearly).
  assert (Hchecks : callEvent <$> made ≠ []) by by destruct made.
  assert (Htracks' : if tracksUpto config r
                     then ∃ t, tracks = [TrackUptoPaymentCall t]
                               ∧ trackingResult = Some t
                     else tracks = []).
  { destruct (tracksUpto config r); [done|]. by destruct Htracks. }
  assert (Huntracked : tracksUpto config r = false → trackingResult = None).
  { intros Hno. rewrite Hno in Htracks. by destruct Htracks. }
  destruct (answerOf early) as [body|] eqn:Hanswer.
  - (* the hook answered: the route handler is skipped *)
    apply answerOf_Some in Hanswer as [-> _].
    specialize (Hearly (ltac:(by eexists))).
    destruct Hrest as [_ Hrest].
    exists (callEvent <$> made), tracks, [], [], r, trackingResult,
      (Some body), s2.
    destruct afterHandleOnEarlyResponse.
    + destruct Hrest as [u Hafter].
      destruct (onAfterHandle_spec _ _ _ _ _ _ _ Hafter Hx402 Huntracked)
        as (Hx & Hstatus & Hphase).
      rewrite Hearly in Hphase. destruct Hphase as (_ & Htrace3 & Hset).
      rewrite Hx, Hearly, Htrace3, Htrace2, Htrace1, Hx402, !app_nil_r, <- app_assoc.
      split_and!; try done; [apply callEvents_process | by right].
    + subst s'.
      rewrite Hearly, Htrace2, Htrace1, Hx402, !app_nil_r, <- app_assoc.
      split_and!; try done; [apply callEvents_process | by right | by left].
  - (* the route handler runs, and the after-handle hook follows it *)
    destruct Hrest as (w3 & u & _ & Hafter).
    set (s3 := {| world := w3; trace := trace s2 ++ [RouteHandlerCall];
                  set := set s2; x402 := x402 s2 |}) in *.
    destruct (onAfterHandle_spec _ _ _ _ _ _ _ Hafter Hx402 Huntracked)
      as (Hx & Hstatus & Hphase).
    exists (callEvent <$> made), tracks, [RouteHandlerCall].
    destruct (settles config (x402 s3)) eqn:Hsettles.
    + destruct Hphase as (payload & reqs & settlement & Hr & _ & Htrace4 & Hset).
      exists [ProcessSettlementCall payload reqs settlement], r, trackingResult,
        early, s2.
      rewrite Hx, Hsettles, Htrace4. subst s3. simpl in *.
      rewrite Htrace2, Htrace1, Hx402, <- !app_assoc.
      split_and!; try done; [apply callEvents_process | by left | ].
      by exists payload, reqs, settlement.
    + destruct Hphase as (_ & Htrace4 & Hset).
      exists [], r, trackingResult, early, s2.
      rewrite Hx, Hsettles, Htrace4. subst s3. simpl in *.
      rewrite Htrace2, Htrace1, Hx402, ?app_nil_r, <- ?app_assoc.
      split_and!; try done; [apply callEvents_process | by left].
Qed.
End LifecycleProperties.

(** The sample request for a paid route: one payment check, the route
    handler, then the settlement, whose header is merged into the
    response. *)
Lemma handleRequest_phases_witness :
  let run :=
    handleRequest true Sample.config (Sample.get "http://localhost/api/paid" [])
      Sample.routeHandler Sample.initial in
  ∃ checks tracks handled settlements r trackingResult returned s2,
    trace (snd run) = trace Sample.initial ++ checks ++ tracks ++ handled ++ settlements
    ∧ checks ≠ []
    ∧ Forall (λ e, isProcessHTTPRequestCall e = true) checks
    ∧ x402 (snd run) = Some {| result := r; tracking := trackingResult |}
    ∧ (if tracksUpto Sample.config r
       then ∃ t, tracks = [TrackUptoPaymentCall t] ∧ trackingResult = Some t
       else tracks = [])
    ∧ (handled = [RouteHandlerCall] ∨ handled = [])
    ∧ onBeforeHandle Sample.config (Sample.get "http://localhost/api/paid" [])
        Sample.initial = (returned, s2)
    ∧ set_status (set (snd run)) = set_status (set s2)
    ∧ (if settles Sample.config (x402 (snd run))
       then handled = [RouteHandlerCall]
            ∧ ∃ paymentPayload paymentRequirements settlement,
                r = PaymentVerified paymentPayload paymentRequirements
                ∧ settlements
                  = [ProcessSettlementCall paymentPayload paymentRequirements
                       settlement]
                ∧ match settlement with
                  | SettleSuccess headers =>
                      headersMerged (set s2) (set (snd run)) headers
                  | SettleFailure _ => set (snd run) = set s2
                  end
       else settlements = []
            ∧ (set (snd run) = set s2
               ∨ ∃ sessionId,
                   tracksUpto Sample.config r = true
                   ∧ trackingResult = Some (TrackingSuccess sessionId)
                   ∧ headersMerged (set s2) (set (snd run))
                       {[ "x-upto-session-id" := sessionId ]})).
Proof.
  intros run.
  apply (handleRequest_phases true Sample.config
           (Sample.get "http://localhost/api/paid" []) Sample.routeHandler
           Sample.initial (fst run) (snd run)).
  vm_compute. reflexivity.
Defined.

(** C1 as stated fails for upto tracking: for the sample request on the
    metered route, whose payment is verified under the scheme "upto", the
    call of [trackUptoPayment] comes before the route handler, and nothing
    is called after the route handler. *)
Lemma upto_tracking_precedes_handler :
  let events :=
    trace (snd (handleRequest true Sample.config
                  (Sample.get "http://localhost/api/metered" [])
                  Sample.routeHandler Sample.initial)) in
  events
  = [ ProcessHTTPRequestCall "/api/metered"
        (PaymentVerified Sample.somePayload Sample.uptoRequirements);
      TrackUptoPaymentCall (TrackingSuccess "session-1");
      RouteHandlerCall ]
  ∧ ¬ trackingAfterHandler events.
Proof.
  assert (Hevents :
    trace (snd (handleRequest true Sample.config
                  (Sample.get "http://localhost/api/metered" [])
                  Sample.routeHandler Sample.initial))
    = [ ProcessHTTPRequestCall "/api/metered"
          (PaymentVerified Sample.somePayload Sample.uptoRequirements);
        TrackUptoPaymentCall (TrackingSuccess "session-1");
        RouteHandlerCall ]) by (vm_compute; reflexivity).
  split; [exact Hevents|].
  intros Hafter. rewrite Hevents in Hafter.
  specialize (Hafter
    [ ProcessHTTPRequestCall "/api/metered"
        (PaymentVerified Sample.somePayload Sample.uptoRequirements) ]
    (TrackUptoPaymentCall (TrackingSuccess "session-1"))
    [ RouteHandlerCall ] eq_refl eq_refl).
  apply elem_of_cons in Hafter as [Hhead | Htail]; [discriminate|].
  by apply elem_of_nil in Htail.
Qed.

Section PaymentCheckProperties.
Context {realm : Realm} {World : Type} {uptoLib : UptoLib World}.

Implicit Types (config : ElysiaPaymentMiddlewareConfig World)
  (ctx : ElysiaRequestContext) (s : Store World).

(** C2.  When the payment check yields a result of type "payment-error",
    the before-handle hook sets the response status to the status of the
    error response, merges the headers of the error response into the
    response headers, and returns the body of the error response.  The
    request is answered with that body, and the route handler is not
    invoked, when the error response has a body.  When it has none the
    hook has returned [undefined]: the route handler is invoked, and its
    response goes out with the status and the headers of the error
    response. *)
Theorem payment_error_answers (afterHandleOnEarlyResponse : bool) config ctx
    (routeHandler : World → JsValue * World) s response s1 answer s' :
  paymentCheck config ctx s = (PaymentError response, s1) →
  handleRequest afterHandleOnEarlyResponse config ctx routeHandler s
  = (answer, s') →
  ∃ s2 events,
    onBeforeHandle config ctx s = (Some (resp_body response), s2)
    ∧ set_status (set s2) = Some (resp_status response)
    ∧ headersMerged (set s) (set s2) (resp_headers response)
    ∧ trace s' = trace s ++ events
    ∧ set s' = set s2
    ∧ match resp_body response with
      | JsUndefined =>
          RouteHandlerCall ∈ events
          ∧ answer = fst (routeHandler (world s2))
      | body => (RouteHandlerCall ∉ events) ∧ answer = body
      end.
Proof.
  intros Hcheck Hrun.
  destruct (paymentCheck_spec _ _ _ _ _ Hcheck)
    as (paywall & s0 & made & skipped & _ & _ & _ & Htrace & Hset & _).
  apply handleRequest_run in Hrun as (early & s2 & Hbefore & Hrest).
  destruct (onBeforeHandle_untracked _ _ _ _ _ _ _ Hbefore Hcheck eq_refl)
    as (_ & Htrace2 & Hx402 & -> & Hset2).
  assert (Hidle : ∀ s3 u,
            onAfterHandle config ctx s3 = (u, s') → x402 s3 = x402 s2 →
            trace s' = trace s3 ∧ set s' = set s3).
  { intros s3 u Hafter Hx.
    apply onAfterHandle_idle in Hafter
      as (_ & ? & _ & [?|(state & sessionId & Hstate & Htracking & _)]);
      [done| |unfold settles; by rewrite Hx, Hx402].
    rewrite Hx, Hx402 in Hstate. by injection Hstate as <-. }
  assert (Hchecks : RouteHandlerCall ∉ (callEvent <$> made)).
  { intros ([c r] & [=] & _)%list_elem_of_fmap. }
  assert (Hhook :
    set_status (set s2) = Some (resp_status response)
    ∧ headersMerged (set s) (set s2) (resp_headers response)).
  { rewrite Hset2, Hset. split; [done|apply headersMerged_answered]. }
  destruct Hhook as [Hstatus Hheaders].
  destruct (resp_body response) eqn:Hbody; simpl in Hrest;
    lazymatch type of Hrest with
    | ex _ =>
        destruct Hrest as (w3 & u & Hhandler & Hafter);
        destruct (Hidle _ _ Hafter eq_refl) as [Htrace3 Hset3];
        simpl in Htrace3, Hset3;
        exists s2, ((callEvent <$> made) ++ [RouteHandlerCall]);
        rewrite Htrace3, Htrace2, Htrace, Hhandler, <- app_assoc;
        split_and!; try done; set_solver
    | _ =>
        destruct Hrest as [-> Hafter];
        exists s2, (callEvent <$> made);
        destruct afterHandleOnEarlyResponse;
          [ destruct Hafter as [u Hafter];
            destruct (Hidle _ _ Hafter eq_refl) as [Htrace3 Hset3];
            rewrite Htrace3, Htrace2, Htrace; by split_and!
          | subst s'; rewrite Htrace2, Htrace; by split_and! ]
    end.
Qed.


(** C7.  The before-handle hook calls [processHTTPRequest] on the
    candidate paths in order and stops at the first candidate whose
    result is not "no-payment-required"; the result stored in
    [ctx.x402] is that result; and when every candidate yields
    "no-payment-required" the stored result is the one of the last
    candidate and the hook lets the request proceed: it returns nothing,
    calls nothing else and leaves the response untouched. *)
Theorem onBeforeHandle_first_result config ctx s early s' :
  onBeforeHandle config ctx s = (early, s') →
  ∃ paywall s0 w1 made skipped tracks r trackingResult,
    resolvePaywallConfig (paywallConfig config) (request ctx) s = (paywall, s0)
    ∧ pathCandidatesOf config ctx = (fst <$> made) ++ skipped
    ∧ callsFrom (httpServer config) (createAdapter ctx (aliasesOf config))
        paywall (world s0) made w1
    ∧ trace s' = trace s ++ (callEvent <$> made) ++ tracks
    ∧ Forall (λ e, isProcessHTTPRequestCall e = false) tracks
    ∧ x402 s' = Some {| result := r; tracking := trackingResult |}
    ∧ ((∃ before candidate,
          made = before ++ [(candidate, r)]
          ∧ Forall notRequired before
          ∧ r ≠ NoPaymentRequired)
       ∨ (skipped = []
          ∧ Forall notRequired made
          ∧ last (snd <$> made) = Some r
          ∧ r = NoPaymentRequired
          ∧ early = None ∧ tracks = [] ∧ set s' = set s)).
Proof.
  intros Hbefore.
  destruct (paymentCheck config ctx s) as [r s1] eqn:Hcheck.
  destruct (paymentCheck_spec _ _ _ _ _ Hcheck)
    as (paywall & s0 & made & skipped & Hpaywall & Hcands & Hcalls & Htrace
        & Hset & _ & Hshape).
  destruct (tracksUpto config r) eqn:Htracks.
  - destruct (onBeforeHandle_tracked _ _ _ _ _ _ _ Hbefore Hcheck Htracks)
      as (uc & payload & reqs & t & -> & _ & _ & Htrace2 & Hx402 & _).
    exists paywall, s0, (world s1), made, skipped, [TrackUptoPaymentCall t],
      (PaymentVerified payload reqs), (Some t).
    rewrite Htrace2, Htrace, <- app_assoc. split_and!; try done.
    + by repeat constructor.
    + destruct Hshape as [Hstopped | (_ & _ & _ & [=])]. by left.
  - destruct (onBeforeHandle_untracked _ _ _ _ _ _ _ Hbefore Hcheck Htracks)
      as (_ & Htrace2 & Hx402 & Hearly).
    exists paywall, s0, (world s1), made, skipped, [], r, None.
    rewrite Htrace2, Htrace, app_nil_r. split_and!; try done.
    destruct Hshape as [Hstopped | (-> & Hall & Hlast & ->)]; [by left|].
    right. destruct Hearly as [-> ->]. by split_and!.
Qed.
End PaymentCheckProperties.

(** A request for a route whose payment-error response has no body: the
    hook sets the status 402 and the header of the error response and
    returns [undefined], and the route handler answers the request. *)
Lemma payment_error_answers_witness :
  let ctx := Sample.get "http://localhost/api/locked" [] in
  let run :=
    handleRequest true Cases.bodylessConfig ctx Sample.routeHandler
      Sample.initial in
  ∃ s2 events,
    onBeforeHandle Cases.bodylessConfig ctx Sample.initial
    = (Some JsUndefined, s2)
    ∧ set_status (set s2) = Some 402%Z
    ∧ headersMerged (set Sample.initial) (set s2)
        {[ "payment-required" := "e30=" ]}
    ∧ trace (snd run) = trace Sample.initial ++ events
    ∧ set (snd run) = set s2
    ∧ RouteHandlerCall ∈ events
    ∧ fst run = fst (Sample.routeHandler (world s2)).
Proof.
  intros ctx run.
  apply (λ Hcheck,
           payment_error_answers true Cases.bodylessConfig ctx
             Sample.routeHandler Sample.initial Cases.bodylessError
             (snd (paymentCheck Cases.bodylessConfig ctx Sample.initial))
             (fst run) (snd run) Hcheck);
    vm_compute; reflexivity.
Defined.



(** The sample request [GET http://localhost/paid] has the candidates
    "/paid" and "/api/paid"; the library requires no payment for the
    first and verifies one for the second. *)
Lemma onBeforeHandle_first_result_witness :
  let ctx := Sample.get "http://localhost/paid" [] in
  let run := onBeforeHandle Sample.config ctx Sample.initial in
  ∃ paywall s0 w1 made skipped tracks r trackingResult,
    resolvePaywallConfig (paywallConfig Sample.config) (request ctx) Sample.initial
    = (paywall, s0)
    ∧ pathCandidatesOf Sample.config ctx = (fst <$> made) ++ skipped
    ∧ callsFrom (httpServer Sample.config)
        (createAdapter ctx (aliasesOf Sample.config)) paywall (world s0) made w1
    ∧ trace (snd run) = trace Sample.initial ++ (callEvent <$> made) ++ tracks
    ∧ Forall (λ e, isProcessHTTPRequestCall e = false) tracks
    ∧ x402 (snd run) = Some {| result := r; tracking := trackingResult |}
    ∧ ((∃ before candidate,
          made = before ++ [(candidate, r)]
          ∧ Forall notRequired before
          ∧ r ≠ NoPaymentRequired)
       ∨ (skipped = []
          ∧ Forall notRequired made
          ∧ last (snd <$> made) = Some r
          ∧ r = NoPaymentRequired
          ∧ fst run = None ∧ tracks = [] ∧ set (snd run) = set Sample.initial)).
Proof.
  intros ctx run.
  apply (onBeforeHandle_first_result Sample.config ctx Sample.initial
           (fst run) (snd run)).
  vm_compute. reflexivity.
Defined.

(* ===================================================================== *)
(** ** Further properties of the path candidates *)
(* ===================================================================== *)

Section CandidateSets.
Import JsString.

(** Folds of steps that only add: membership, absence of duplicates,
    order and size. *)
Lemma elem_of_foldl_step {A} (f : list string → A → list string)
    (added : A → string → Prop) (l : list A) cs x :
  (∀ cs a x, x ∈ f cs a ↔ x ∈ cs ∨ added a x) →
  x ∈ foldl f cs l ↔ x ∈ cs ∨ ∃ a, a ∈ l ∧ added a x.
Proof.
  intros Hstep. revert cs. induction l as [|a l IH]; intros cs; simpl.
  - split; [by left|]. intros [?|(a & Ha & _)]; [done|].
    by apply elem_of_nil in Ha.
  - rewrite IH, Hstep. split.
    + intros [[?|?]|(b & Hb & ?)]; [by left| |].
      * right. exists a. split; [apply list_elem_of_here|done].
      * right. exists b. split; [by apply list_elem_of_further|done].
    + intros [?|(b & [-> | Hb]%elem_of_cons & ?)]; [by left; left|by left; right|].
      right. by exists b.
Qed.

Lemma NoDup_Set_add (s : list string) x : NoDup s → NoDup (Set_add s x).
Proof.
  intros Hs. unfold Set_add. case_bool_decide as Hx; [done|].
  apply NoDup_app. split; [done|]. split; [|apply NoDup_singleton].
  intros y Hy ->%list_elem_of_singleton. done.
Qed.

Lemma NoDup_foldl {A} (f : list string → A → list string) (l : list A) cs :
  (∀ cs a, NoDup cs → NoDup (f cs a)) → NoDup cs → NoDup (foldl f cs l).
Proof.
  intros Hstep. revert cs. induction l as [|a l IH]; intros cs Hcs; simpl; auto.
Qed.

Lemma prefix_Set_add (s : list string) x : s `prefix_of` Set_add s x.
Proof.
  unfold Set_add. case_bool_decide; [done|]. by apply prefix_app_r.
Qed.

Lemma prefix_foldl {A} (f : list string → A → list string) (l : list A) cs :
  (∀ cs a, cs `prefix_of` f cs a) → cs `prefix_of` foldl f cs l.
Proof.
  intros Hstep. revert cs. induction l as [|a l IH]; intros cs; simpl; [done|].
  etrans; [apply Hstep|apply IH].
Qed.

Lemma length_Set_add (s : list string) x : length (Set_add s x) ≤ S (length s).
Proof.
  unfold Set_add. case_bool_decide; [lia|].
  rewrite length_app. simpl. lia.
Qed.

Lemma length_foldl {A} (f : list string → A → list string) (l : list A) cs n :
  (∀ cs a, length (f cs a) ≤ length cs + n) →
  length (foldl f cs l) ≤ length cs + length l * n.
Proof.
  intros Hstep. revert cs. induction l as [|a l IH]; intros cs; simpl; [lia|].
  specialize (IH (f cs a)). specialize (Hstep cs a). lia.
Qed.

Lemma elem_of_expandStep prefix cs c x :
  x ∈ expandStep prefix cs c ↔ x ∈ cs ∨ expansion prefix c x.
Proof.
  unfold expandStep, expansion.
  destruct (startsWith c prefix); simpl; rewrite elem_of_Set_add; naive_solver.
Qed.

Lemma NoDup_expandStep prefix cs c : NoDup cs → NoDup (expandStep prefix cs c).
Proof.
  intros Hcs. unfold expandStep.
  destruct (startsWith c prefix); simpl; by apply NoDup_Set_add.
Qed.

Lemma prefix_expandStep prefix cs c : cs `prefix_of` expandStep prefix cs c.
Proof.
  unfold expandStep. destruct (startsWith c prefix); simpl; apply prefix_Set_add.
Qed.

Lemma length_expandStep prefix cs c : length (expandStep prefix cs c) ≤ length cs + 1.
Proof.
  unfold expandStep.
  destruct (startsWith c prefix); simpl;
    match goal with |- context [Set_add ?s ?x] =>
      pose proof (length_Set_add s x) end; lia.
Qed.

Lemma elem_of_collectPrefixes patterns prefix :
  prefix ∈ collectPrefixes patterns ↔
    prefix ≠ ""
    ∧ ∃ pattern, pattern ∈ patterns
                 ∧ prefix = normalizePrefix (getStaticPrefix pattern).
Proof.
  unfold collectPrefixes.
  rewrite (elem_of_foldl_step _
             (λ pattern x, x ≠ "" ∧ x = normalizePrefix (getStaticPrefix pattern))).
  - rewrite elem_of_nil. naive_solver.
  - intros cs pattern x.
    destruct (String.eqb pattern "*") eqn:Estar.
    { apply eqb_string_eq in Estar as ->. split; [by left|].
      intros [?|[Hne ->]]; [done|]. by vm_compute in Hne. }
    destruct (String.eqb _ "") eqn:Eempty.
    { apply eqb_string_eq in Eempty. split; [by left|].
      intros [?|[Hne ->]]; done. }
    apply eqb_string_ne in Eempty. rewrite elem_of_Set_add. naive_solver.
Qed.

Lemma length_collectPrefixes patterns :
  length (collectPrefixes patterns) ≤ length patterns.
Proof.
  unfold collectPrefixes.
  etrans; [apply (length_foldl _ _ _ 1)|simpl; lia].
  intros cs pattern.
  destruct (String.eqb pattern "*"); [lia|].
  destruct (String.eqb _ ""); [lia|].
  pose proof (length_Set_add cs (normalizePrefix (getStaticPrefix pattern))). lia.
Qed.

Lemma elem_of_expandPathCandidates base patterns x :
  x ∈ expandPathCandidates base patterns ↔
    x ∈ base
    ∨ ∃ prefix c, prefix ∈ collectPrefixes patterns ∧ c ∈ base
                  ∧ expansion prefix c x.
Proof.
  unfold expandPathCandidates.
  rewrite (elem_of_foldl_step _
             (λ prefix x, ∃ c, c ∈ base ∧ expansion prefix c x)).
  - rewrite elem_of_Set_of. naive_solver.
  - intros cs prefix y.
    apply (elem_of_foldl_step _ (expansion prefix)).
    intros. apply elem_of_expandStep.
Qed.

Lemma NoDup_Set_of (xs : list string) : NoDup (Set_of xs).
Proof.
  unfold Set_of. apply NoDup_foldl; [|apply NoDup_nil_2].
  intros. by apply NoDup_Set_add.
Qed.

Lemma NoDup_expandPathCandidates base patterns :
  NoDup (expandPathCandidates base patterns).
Proof.
  unfold expandPathCandidates. apply NoDup_foldl; [|apply NoDup_Set_of].
  intros cs prefix Hcs. apply NoDup_foldl; [|done].
  intros. by apply NoDup_expandStep.
Qed.

Lemma prefix_expandPathCandidates base patterns :
  Set_of base `prefix_of` expandPathCandidates base patterns.
Proof.
  unfold expandPathCandidates. apply prefix_foldl.
  intros cs prefix. apply prefix_foldl. intros. apply prefix_expandStep.
Qed.

Lemma length_Set_of (xs : list string) : length (Set_of xs) ≤ length xs.
Proof.
  unfold Set_of.
  pose proof (length_foldl Set_add xs [] 1) as Hlen. simpl in Hlen.
  etrans; [apply Hlen|lia].
  intros cs a. pose proof (length_Set_add cs a). lia.
Qed.

Lemma length_expandPathCandidates base patterns :
  length (expandPathCandidates base patterns)
  ≤ length base * (1 + length patterns).
Proof.
  unfold expandPathCandidates.
  pose proof (length_foldl
                (λ candidates prefix, foldl (expandStep prefix) candidates base)
                (collectPrefixes patterns) (Set_of base) (length base)) as Hlen.
  pose proof (length_Set_of base). pose proof (length_collectPrefixes patterns).
  etrans; [apply Hlen|nia].
  intros cs prefix.
  pose proof (length_foldl (expandStep prefix) base cs 1) as Hinner.
  etrans; [apply Hinner|lia].
  intros. apply length_expandStep.
Qed.
End CandidateSets.

Section CandidatesOfRequest.
Import JsString.
Context {realm : Realm} {World : Type}.

Implicit Types (config : ElysiaPaymentMiddlewareConfig World)
  (ctx : ElysiaRequestContext).

Lemma foldl_Set_add_NoDup (acc l : list string) :
  NoDup (acc ++ l) → foldl Set_add acc l = acc ++ l.
Proof.
  revert acc. induction l as [|x l IH]; intros acc Hnodup; simpl.
  - by rewrite app_nil_r.
  - assert (Hx : x ∉ acc).
    { apply NoDup_app in Hnodup as (_ & Hdisjoint & _).
      intros Hin. apply (Hdisjoint x Hin), list_elem_of_here. }
    unfold Set_add at 2. rewrite bool_decide_eq_false_2 by done.
    rewrite IH, <- app_assoc; [done|]. by rewrite <- app_assoc.
Qed.

Lemma Set_of_NoDup (l : list string) : NoDup l → Set_of l = l.
Proof. intros Hl. unfold Set_of. by rewrite foldl_Set_add_NoDup. Qed.

Lemma NoDup_getPathCandidates ctx fallback :
  NoDup (getPathCandidates ctx fallback).
Proof.
  unfold getPathCandidates.
  destruct (nonEmptyString (path ctx)), (nonEmptyString (route ctx));
    repeat apply NoDup_Set_add; apply NoDup_nil_2.
Qed.

Lemma head_getPathCandidates ctx fallback :
  [normalizePathCandidate (pathname (resolveUrl (request ctx)))]
  `prefix_of` getPathCandidates ctx fallback.
Proof.
  unfold getPathCandidates.
  assert (Hfirst : Set_add [] (normalizePathCandidate
                                 (pathname (resolveUrl (request ctx))))
                   = [normalizePathCandidate (pathname (resolveUrl (request ctx)))])
    by done.
  rewrite Hfirst.
  destruct (nonEmptyString (path ctx)), (nonEmptyString (route ctx));
    repeat (etrans; [|apply prefix_Set_add]); done.
Qed.

Lemma elem_of_baseCandidates config ctx c :
  c ∈ getPathCandidates ctx (getPath (createAdapter ctx (aliasesOf config)))
  ↔ requestCandidate ctx c.
Proof.
  rewrite elem_of_getPathCandidates. split; [|by right].
  intros [-> | Hc]; [|done]. apply getPath_requestCandidate.
Qed.

Lemma Set_add_elem (s : list string) x : x ∈ s → Set_add s x = s.
Proof. intros Hx. unfold Set_add. by rewrite bool_decide_eq_true_2. Qed.

Lemma length_baseCandidates config ctx :
  length (getPathCandidates ctx (getPath (createAdapter ctx (aliasesOf config)))) ≤ 3.
Proof.
  unfold getPathCandidates, createAdapter. cbn [getPath].
  set (a := normalizePathCandidate (pathname (resolveUrl (request ctx)))).
  assert (Hfirst : Set_add [] a = [a]) by done. rewrite Hfirst.
  destruct (nonEmptyString (path ctx)) as [p|].
  - rewrite (normalizePathCandidate_id (normalizePathCandidate p))
      by apply normalizePathCandidate_slash.
    rewrite (Set_add_elem (Set_add [a] (normalizePathCandidate p)))
      by (apply elem_of_Set_add; by right).
    pose proof (length_Set_add [a] (normalizePathCandidate p)).
    destruct (nonEmptyString (route ctx)) as [r|]; simpl in *; [|lia].
    pose proof (length_Set_add (Set_add [a] (normalizePathCandidate p))
                  (normalizePathCandidate r)). lia.
  - fold a. rewrite (Set_add_elem [a] a) by apply list_elem_of_here.
    destruct (nonEmptyString (route ctx)) as [r|]; simpl; [|lia].
    pose proof (length_Set_add [a] (normalizePathCandidate r)). simpl in *. lia.
Qed.

(** X1.  The candidate paths of a request are exactly the candidates of
    the request itself (the URL pathname, [ctx.path] and [ctx.route],
    normalized) and, for each of them and each non-empty static prefix of
    a route pattern, the one path that the expansion adds; nothing else
    is tried. *)
Theorem pathCandidates_exact config ctx x :
  x ∈ pathCandidatesOf config ctx ↔
    requestCandidate ctx x
    ∨ ∃ pattern c,
        pattern ∈ routePatternsOf config
        ∧ requestCandidate ctx c
        ∧ normalizePrefix (getStaticPrefix pattern) ≠ ""
        ∧ expansion (normalizePrefix (getStaticPrefix pattern)) c x.
Proof.
  unfold pathCandidatesOf. rewrite elem_of_expandPathCandidates.
  rewrite elem_of_baseCandidates. split.
  - intros [?|(prefix & c & Hprefix & Hc & Hx)]; [by left|right].
    apply elem_of_collectPrefixes in Hprefix as (Hne & pattern & Hpattern & ->).
    exists pattern, c. by rewrite <- elem_of_baseCandidates.
  - intros [?|(pattern & c & Hpattern & Hc & Hne & Hx)]; [by left|right].
    exists (normalizePrefix (getStaticPrefix pattern)), c.
    rewrite elem_of_baseCandidates. split_and!; try done.
    apply elem_of_collectPrefixes. eauto.
Qed.

(** X2.  The candidates of the request itself come first, in the order
    URL pathname, [ctx.path], [ctx.route], so that the URL pathname is
    the first path tried; and no path occurs twice among the
    candidates. *)
Theorem pathCandidates_order config ctx :
  head (pathCandidatesOf config ctx)
  = Some (normalizePathCandidate (pathname (resolveUrl (request ctx))))
  ∧ getPathCandidates ctx (getPath (createAdapter ctx (aliasesOf config)))
    `prefix_of` pathCandidatesOf config ctx
  ∧ NoDup (pathCandidatesOf config ctx).
Proof.
  assert (Hbase : getPathCandidates ctx
                    (getPath (createAdapter ctx (aliasesOf config)))
                  `prefix_of` pathCandidatesOf config ctx).
  { unfold pathCandidatesOf.
    rewrite <- (Set_of_NoDup (getPathCandidates ctx _)) at 1
      by apply NoDup_getPathCandidates.
    apply prefix_expandPathCandidates. }
  split_and!; [|done|apply NoDup_expandPathCandidates].
  destruct (head_getPathCandidates ctx
              (getPath (createAdapter ctx (aliasesOf config)))) as [k Hk].
  destruct Hbase as [k' Hk']. by rewrite Hk', Hk.
Qed.

(** X3.  Every candidate path starts with "/". *)
Theorem pathCandidates_absolute config ctx :
  Forall (λ c, startsWith c "/" = true) (pathCandidatesOf config ctx).
Proof.
  apply Forall_forall. intros x Hx. unfold pathCandidatesOf in Hx.
  apply elem_of_expandPathCandidates in Hx
    as [Hx | (prefix & c & _ & _ & [[_ ->] | [_ ->]])];
    [|apply normalizePathCandidate_slash..].
  apply elem_of_baseCandidates in Hx. by eapply requestCandidate_slash.
Qed.

(** X4.  Without configured routes, with a single route configuration
    (one that has "accepts"), or when no route pattern has a static
    prefix, as for patterns of one segment, the candidates are the
    candidates of the request itself and no other path is tried. *)
Theorem pathCandidates_unexpanded config ctx :
  routes config = None
  ∨ (∃ keys, routes config = Some keys ∧ "accepts" ∈ keys)
  ∨ (∀ pattern, pattern ∈ routePatternsOf config →
       normalizePrefix (getStaticPrefix pattern) = "") →
  pathCandidatesOf config ctx
  = getPathCandidates ctx (getPath (createAdapter ctx (aliasesOf config))).
Proof.
  intros Hroutes.
  assert (Hnone : collectPrefixes (routePatternsOf config) = []).
  { apply elem_of_nil_inv. intros prefix.
    rewrite elem_of_collectPrefixes. intros (Hne & pattern & Hpattern & ->).
    apply Hne. unfold routePatternsOf, getRoutePatternPaths in *.
    destruct Hroutes as [Hr | [(keys & Hr & Haccepts) | Hall]].
    - rewrite Hr in Hpattern. by apply elem_of_nil in Hpattern.
    - rewrite Hr, bool_decide_eq_true_2 in Hpattern by done.
      by apply list_elem_of_singleton in Hpattern as ->.
    - by apply Hall. }
  unfold pathCandidatesOf, expandPathCandidates. rewrite Hnone. simpl.
  apply Set_of_NoDup, NoDup_getPathCandidates.
Qed.

(** X5.  A request has at most three candidates of its own, and at most
    three more for each route pattern. *)
Theorem pathCandidates_bound config ctx :
  length (pathCandidatesOf config ctx)
  ≤ 3 * (1 + length (routePatternsOf config)).
Proof.
  unfold pathCandidatesOf.
  pose proof (length_expandPathCandidates
                (getPathCandidates ctx (getPath (createAdapter ctx (aliasesOf config))))
                (routePatternsOf config)) as Hlen.
  pose proof (length_baseCandidates config ctx). nia.
Qed.
End CandidatesOfRequest.

(** The sample routes all have the static prefix "/api"; without routes
    the request [GET http://localhost/paid] has the one candidate
    "/paid". *)
Lemma pathCandidates_unexpanded_witness :
  pathCandidatesOf
    {| httpServer := Sample.server; routes := None; paywallConfig := None;
       paymentHeaderAliases := None; autoSettle := None; upto := None |}
    (Sample.get "http://localhost/paid" [])
  = ["/paid"].
Proof.
  rewrite (pathCandidates_unexpanded
             {| httpServer := Sample.server; routes := None;
                paywallConfig := None; paymentHeaderAliases := None;
                autoSettle := None; upto := None |}
             (Sample.get "http://localhost/paid" [])).
  - reflexivity.
  - left. reflexivity.
Defined.

(* ===================================================================== *)
(** ** Route patterns and static prefixes *)
(* ===================================================================== *)

Section RoutePatterns.
Import JsString.

Lemma string_app_nil (s : string) : "" +:+ s = s.
Proof. reflexivity. Qed.

Lemma string_app_cons c (s t : string) : String c s +:+ t = String c (s +:+ t).
Proof. reflexivity. Qed.

Lemma string_app_nil_r (s : string) : s +:+ "" = s.
Proof.
  induction s as [|c s IH]; [done|]. by rewrite string_app_cons, IH.
Qed.

Lemma string_app_assoc (s t u : string) : (s +:+ t) +:+ u = s +:+ t +:+ u.
Proof.
  induction s as [|c s IH]; [done|]. by rewrite !string_app_cons, IH.
Qed.

Lemma startsWith_refl s : startsWith s s = true.
Proof.
  induction s as [|c s IH]; [done|]. simpl. by rewrite Ascii.eqb_refl, IH.
Qed.

Lemma startsWith_trans s t u :
  startsWith s t = true → startsWith t u = true → startsWith s u = true.
Proof.
  revert s t. induction u as [|c u IH]; intros s t Hst Htu; [apply startsWith_empty|].
  destruct t as [|d t]; [done|]. destruct s as [|e s]; [done|].
  simpl in *.
  apply andb_true_iff in Hst as [Hde Hst]. apply andb_true_iff in Htu as [Hcd Htu].
  apply Ascii.eqb_eq in Hde as <-. rewrite Hcd. simpl. by eapply IH.
Qed.

Lemma startsWith_sliceTo n s : startsWith s (sliceTo n s) = true.
Proof.
  revert s. induction n as [|n IH]; intros [|c s]; try done.
  simpl. by rewrite Ascii.eqb_refl, IH.
Qed.

Lemma startsWith_stripTrailingSlashes s :
  startsWith s (stripTrailingSlashes s) = true.
Proof.
  induction s as [|c s IH]; [done|]. cbn [stripTrailingSlashes].
  destruct (onlySlashes (String c s)); [done|].
  simpl. by rewrite Ascii.eqb_refl, IH.
Qed.

Lemma startsWith_normalizePathCandidate s t :
  startsWith s t = true →
  startsWith (normalizePathCandidate s) (normalizePathCandidate t) = true.
Proof.
  intros Hst. destruct t as [|c t].
  { apply (normalizePathCandidate_slash s). }
  destruct s as [|d s]; [done|].
  simpl in Hst. apply andb_true_iff in Hst as [Hcd Hst].
  apply Ascii.eqb_eq in Hcd as <-.
  unfold normalizePathCandidate. simpl. rewrite !startsWith_empty.
  destruct (Ascii.eqb "/" c) eqn:E; simpl.
  - by rewrite Ascii.eqb_refl, Hst.
  - change ("/" +:+ String c s) with (String "/" (String c s)).
    change ("/" +:+ String c t) with (String "/" (String c t)).
    simpl. by rewrite ?Ascii.eqb_refl, Hst.
Qed.

Lemma stripTrailingSlashes_empty s :
  stripTrailingSlashes s = "" → onlySlashes s = true.
Proof.
  destruct s as [|c s]; [done|]. cbn [stripTrailingSlashes].
  by destruct (onlySlashes (String c s)).
Qed.

(** What is left after the trailing slashes are stripped does not end
    with a slash. *)
Lemma stripTrailingSlashes_end s t : stripTrailingSlashes s ≠ t +:+ "/".
Proof.
  revert t. induction s as [|c s IH]; intros t.
  - by destruct t.
  - cbn [stripTrailingSlashes].
    destruct (onlySlashes (String c s)) eqn:Hall; [by destruct t|].
    destruct t as [|d t].
    + rewrite string_app_nil. intros [= -> Hs].
      apply stripTrailingSlashes_empty in Hs.
      simpl in Hall. rewrite Hs in Hall. by vm_compute in Hall.
    + rewrite string_app_cons. intros [= _ Hs]. by apply (IH t).
Qed.

Lemma getStaticPrefix_startsWith routePath :
  startsWith (normalizePathCandidate routePath) (getStaticPrefix routePath) = true.
Proof.
  unfold getStaticPrefix.
  set (staticPath := match searchWildcard routePath with
                     | Some i => sliceTo i routePath | None => routePath end).
  assert (Hstatic : startsWith routePath staticPath = true).
  { subst staticPath. destruct (searchWildcard routePath);
      [apply startsWith_sliceTo | apply startsWith_refl]. }
  destruct (lastIndexOfSlash _) as [[|n]|]; try apply startsWith_empty.
  eapply startsWith_trans; [by apply startsWith_normalizePathCandidate|].
  eapply startsWith_trans; [apply startsWith_stripTrailingSlashes|].
  apply startsWith_sliceTo.
Qed.

(** X7.  The static prefix that [expandPathCandidates] takes from a route
    pattern is a prefix of the pattern, normalized to start with "/"; it
    is empty or starts with "/"; and it does not end with "/". *)
Theorem staticPrefix_shape routePath :
  let prefix := normalizePrefix (getStaticPrefix routePath) in
  startsWith (normalizePathCandidate routePath) prefix = true
  ∧ (prefix = "" ∨ startsWith prefix "/" = true)
  ∧ ∀ t, prefix ≠ t +:+ "/".
Proof.
  intros prefix. split_and!.
  - subst prefix. unfold normalizePrefix.
    destruct (String.eqb _ "/"); [apply startsWith_empty|].
    eapply startsWith_trans; [apply getStaticPrefix_startsWith|].
    apply startsWith_stripTrailingSlashes.
  - apply normalizePrefix_slash.
  - intros t. subst prefix. unfold normalizePrefix.
    destruct (String.eqb _ "/"); [by destruct t|].
    apply stripTrailingSlashes_end.
Qed.

Lemma whitespaceWidth_plain c rest :
  plainChar c = true → whitespaceWidth (String c rest) = 0.
Proof.
  unfold plainChar, whitespaceWidth.
  intros [Hlow Hhigh]%andb_true_iff.
  apply Nat.leb_le in Hlow. apply Nat.leb_le in Hhigh.
  set (b0 := nat_of_ascii c) in *.
  assert (H1 : ((9 <=? b0) && (b0 <=? 13) || (b0 =? 32)) = false).
  { apply orb_false_iff. split.
    - apply andb_false_iff. right. apply Nat.leb_gt. lia.
    - apply Nat.eqb_neq. lia. }
  assert (H194 : (b0 =? 194) = false) by (apply Nat.eqb_neq; lia).
  assert (H225 : (b0 =? 225) = false) by (apply Nat.eqb_neq; lia).
  assert (H226 : (b0 =? 226) = false) by (apply Nat.eqb_neq; lia).
  assert (H227 : (b0 =? 227) = false) by (apply Nat.eqb_neq; lia).
  assert (H239 : (b0 =? 239) = false) by (apply Nat.eqb_neq; lia).
  rewrite H1. destruct rest as [|c1 [|c2 rest]]; [done| |].
  - by rewrite H194.
  - by rewrite H194, H225, H226, H227, H239.
Qed.

Lemma splitWhitespace_go_plain s rest inRun piece :
  plainString s = true →
  splitWhitespace_go (s +:+ rest) 0 inRun piece
  = match s with
    | "" => splitWhitespace_go rest 0 inRun piece
    | _ => splitWhitespace_go rest 0 false (piece +:+ s)
    end.
Proof.
  revert inRun piece. induction s as [|c s IH]; intros inRun piece; [done|].
  cbn [plainString]. intros [Hc Hs]%andb_true_iff.
  rewrite string_app_cons. cbn [splitWhitespace_go].
  rewrite whitespaceWidth_plain by done.
  rewrite IH by done. destruct s as [|d s]; [done|].
  by rewrite string_app_assoc.
Qed.

Lemma splitWhitespace_method_path method path :
  plainString method = true → plainString path = true →
  splitWhitespace (method +:+ " " +:+ path) = [method; path].
Proof.
  intros Hmethod Hpath. unfold splitWhitespace.
  rewrite splitWhitespace_go_plain by done.
  assert (Hsplit : ∀ piece, splitWhitespace_go (" " +:+ path) 0 false piece
                            = [piece; path]).
  { intros piece. rewrite string_app_cons, string_app_nil.
    cbn [splitWhitespace_go]. change (whitespaceWidth (String " " path)) with 1.
    f_equal. rewrite <- (string_app_nil_r path) at 1.
    rewrite splitWhitespace_go_plain by done.
    destruct path; [done|]. by rewrite string_app_nil. }
  destruct method; apply Hsplit.
Qed.

Lemma includesSpace_plain s : plainString s = true → includesSpace s = false.
Proof.
  induction s as [|c s IH]; [done|]. cbn [plainString includesSpace].
  intros [Hc Hs]%andb_true_iff. rewrite IH by done.
  rewrite orb_false_r. apply Ascii.eqb_neq. intros ->. by vm_compute in Hc.
Qed.

Lemma includesSpace_app s t : includesSpace (s +:+ " " +:+ t) = true.
Proof.
  induction s as [|c s IH]; [done|].
  rewrite string_app_cons. cbn [includesSpace]. rewrite IH. apply orb_true_r.
Qed.

(** X6.  For a table of routes, [getRoutePatternPaths] yields one pattern
    for each key, in the order of the keys: for a key "METHOD path" the
    path, and for a key without a space the key itself, normalized to
    start with "/". *)
Theorem getRoutePatternPaths_table (keys : list string) :
  "accepts" ∉ keys →
  length (getRoutePatternPaths (Some keys)) = length keys
  ∧ (∀ i method path,
       keys !! i = Some (method +:+ " " +:+ path) →
       plainString method = true → plainString path = true →
       getRoutePatternPaths (Some keys) !! i = Some (normalizePathCandidate path))
  ∧ (∀ i path,
       keys !! i = Some path → plainString path = true →
       getRoutePatternPaths (Some keys) !! i = Some (normalizePathCandidate path)).
Proof.
  intros Haccepts. unfold getRoutePatternPaths.
  rewrite bool_decide_eq_false_2 by done. split_and!.
  - apply length_map.
  - intros i method path Hkey Hmethod Hpath.
    change (map ?f keys) with (f <$> keys).
    rewrite list_lookup_fmap, Hkey. simpl.
    by rewrite includesSpace_app, splitWhitespace_method_path.
  - intros i path Hkey Hpath.
    change (map ?f keys) with (f <$> keys).
    rewrite list_lookup_fmap, Hkey. simpl.
    by rewrite includesSpace_plain.
Qed.
End RoutePatterns.

(** The keys of the sample routes. *)
Lemma getRoutePatternPaths_table_witness :
  getRoutePatternPaths (Some [ "GET /api/paid"; "/api/metered" ]) !! 0
  = Some "/api/paid"
  ∧ getRoutePatternPaths (Some [ "GET /api/paid"; "/api/metered" ]) !! 1
    = Some "/api/metered".
Proof.
  destruct (getRoutePatternPaths_table [ "GET /api/paid"; "/api/metered" ])
    as (_ & Hmethod & Hplain).
  { intros Hin. repeat (apply elem_of_cons in Hin as [Hin | Hin]; [discriminate|]).
    by apply elem_of_nil in Hin. }
  split.
  - apply (Hmethod 0 "GET" "/api/paid"); reflexivity.
  - apply (Hplain 1 "/api/metered"); reflexivity.
Defined.

(* ===================================================================== *)
(** ** Further properties of the HTTP adapter *)
(* ===================================================================== *)

Section QueryParams.
Context {realm : Realm}.

Lemma ObjectPrototype_get_cases key :
  key ≠ "__proto__" →
  (inheritedKey key = false
   ∧ ObjectPrototype_get (JsIntrinsic "Object.prototype") key = JsUndefined)
  ∨ (key ∈ ObjectPrototype_methods
     ∧ ObjectPrototype_get (JsIntrinsic "Object.prototype") key
       = JsFunction ("Object.prototype." +:+ key)).
Proof.
  intros Hne%eqb_string_ne. unfold ObjectPrototype_get, inheritedKey.
  rewrite Hne. simpl. case_bool_decide; [by right|by left].
Qed.

(** The own properties of [queryParams] after the loop, when no key of
    the query string is "__proto__": each key holds what its values
    accumulate to, starting from what the empty object reads for it. *)
Lemma buildQueryParams_accumulated entries :
  (∀ entry, entry ∈ entries → fst entry ≠ "__proto__") →
  q_proto (buildQueryParams entries) = None
  ∧ ∀ key,
      key ≠ "__proto__" →
      q_own (buildQueryParams entries) !! key
      = match queryValues key entries with
        | [] => None
        | values =>
            Some (accumulated
                    (ObjectPrototype_get (JsIntrinsic "Object.prototype") key)
                    values)
        end.
Proof.
  induction entries as [|[k v] entries IH] using rev_ind; intros Hkeys.
  { split; [done|]. intros key _. apply lookup_empty. }
  destruct IH as [Hproto Hown].
  { intros entry Hin. apply Hkeys, elem_of_app. by left. }
  assert (Hk : k ≠ "__proto__").
  { apply (Hkeys (k, v)), elem_of_app. right. apply list_elem_of_here. }
  pose proof Hk as Hne%eqb_string_ne.
  rewrite buildQueryParams_snoc.
  set (q := buildQueryParams entries) in *.
  set (inherited := ObjectPrototype_get (JsIntrinsic "Object.prototype") k).
  assert (Hexisting :
    QueryObject_get q k = accumulated inherited (queryValues k entries)).
  { unfold QueryObject_get. rewrite (Hown k Hk), Hproto. fold inherited.
    destruct (queryValues k entries); [|done]. by destruct inherited. }
  pose proof (Hown k Hk) as Hownk. fold inherited in Hownk.
  assert (Hstep :
    q_proto (addQueryParam q (k, v)) = None
    ∧ q_own (addQueryParam q (k, v))
      = <[k := accumulated inherited (queryValues k entries ++ [v])]> (q_own q)).
  { unfold addQueryParam. cbn [fst snd]. rewrite Hexisting.
    destruct (ObjectPrototype_get_cases k Hk) as [[_ Hinh] | [_ Hinh]];
      fold inherited in Hinh; rewrite Hinh in *;
      destruct (queryValues k entries) as [|v0 [|v1 values]];
      cbn [accumulated queryParamOf is_undefined Array_isArray app] in *;
      unfold QueryObject_set, QueryObject_push; rewrite ?Hne, ?Hownk;
      cbn [q_own q_proto fmap list_fmap app]; rewrite ?fmap_app; done. }
  destruct Hstep as [Hproto' Hown']. split; [done|].
  intros key Hkey. rewrite Hown', queryValues_snoc.
  destruct (decide (k = key)) as [<- | Hdiff].
  - rewrite lookup_insert_eq. fold inherited.
    by destruct (queryValues k entries).
  - rewrite lookup_insert_ne, app_nil_r by done. by apply Hown.
Qed.

Lemma getQueryParam_accumulated ctx aliases key :
  let entries := searchParams (resolveUrl (request ctx)) in
  (∀ entry, entry ∈ entries → fst entry ≠ "__proto__") →
  key ≠ "__proto__" →
  getQueryParam (createAdapter ctx aliases) key
  = accumulated (ObjectPrototype_get (JsIntrinsic "Object.prototype") key)
      (queryValues key entries).
Proof.
  intros entries Hkeys Hkey. cbn [createAdapter getQueryParam].
  destruct (buildQueryParams_accumulated entries Hkeys) as [Hproto Hown].
  unfold QueryObject_get. fold entries. rewrite (Hown key Hkey), Hproto.
  destruct (queryValues key entries); [|done].
  by destruct (ObjectPrototype_get _ key).
Qed.

(** X8.  When no key of the query string is "__proto__",
    [adapter.getQueryParam(name)] for a name that no object inherits is
    [undefined] when the query string has no such key, the value when it
    has the key once, and the array of the values in their order when it
    has the key several times, whatever the other keys are. *)
Theorem getQueryParam_ordinary ctx aliases key :
  let entries := searchParams (resolveUrl (request ctx)) in
  (∀ entry, entry ∈ entries → fst entry ≠ "__proto__") →
  inheritedKey key = false →
  getQueryParam (createAdapter ctx aliases) key
  = match queryValues key entries with
    | [] => JsUndefined
    | [value] => JsString value
    | values => JsArray (JsString <$> values)
    end.
Proof.
  intros entries Hkeys Hkey.
  apply inheritedKey_false in Hkey as [Hne Hinherited].
  rewrite getQueryParam_accumulated by done. fold entries.
  rewrite Hinherited. by destruct (queryValues key entries) as [|v0 [|v1 values]].
Qed.

(** X9.  When no key of the query string is "__proto__",
    [adapter.getQueryParam(name)] for the name of a method of
    [Object.prototype] is never [undefined] and never a string: it is the
    inherited function when the query string has no such key, and
    otherwise the array of that function followed by the values of the
    key. *)
Theorem getQueryParam_inherited_method ctx aliases key :
  let entries := searchParams (resolveUrl (request ctx)) in
  (∀ entry, entry ∈ entries → fst entry ≠ "__proto__") →
  key ∈ ObjectPrototype_methods →
  getQueryParam (createAdapter ctx aliases) key
  = match queryValues key entries with
    | [] => JsFunction ("Object.prototype." +:+ key)
    | values =>
        JsArray (JsFunction ("Object.prototype." +:+ key) :: (JsString <$> values))
    end.
Proof.
  intros entries Hkeys Hkey.
  assert (Hne : key ≠ "__proto__").
  { intros ->.
    assert (Hno : "__proto__" ∉ ObjectPrototype_methods)
      by (apply (bool_decide_eq_false_1 _); reflexivity).
    done. }
  rewrite getQueryParam_accumulated by done. fold entries.
  destruct (ObjectPrototype_get_cases key Hne) as [[Hno _] | [_ ->]];
    [|by destruct (queryValues key entries)].
  unfold inheritedKey in Hno. apply orb_false_iff in Hno as [_ Hno].
  by rewrite bool_decide_eq_true_2 in Hno.
Qed.
End QueryParams.

(** The query string [a=1&toString=x&a=2]: "a" maps to the array of its
    two values although another key names an inherited method. *)
Lemma getQueryParam_ordinary_witness :
  getQueryParam
    (createAdapter (Sample.get "http://localhost/api/paid?a=1&toString=x&a=2" [])
       DEFAULT_PAYMENT_HEADER_ALIASES) "a"
  = JsArray [JsString "1"; JsString "2"].
Proof.
  etrans.
  - apply (getQueryParam_ordinary
             (Sample.get "http://localhost/api/paid?a=1&toString=x&a=2" [])
             DEFAULT_PAYMENT_HEADER_ALIASES "a").
    + intros entry Hin. vm_compute in Hin.
      repeat (apply elem_of_cons in Hin as [-> | Hin]; [discriminate|]).
      by apply elem_of_nil in Hin.
    + reflexivity.
  - vm_compute. reflexivity.
Defined.

(** The same query string: "valueOf", which it does not have, reads as
    the inherited function. *)
Lemma getQueryParam_inherited_method_witness :
  getQueryParam
    (createAdapter (Sample.get "http://localhost/api/paid?a=1&toString=x&a=2" [])
       DEFAULT_PAYMENT_HEADER_ALIASES) "valueOf"
  = JsFunction "Object.prototype.valueOf".
Proof.
  etrans.
  - apply (getQueryParam_inherited_method
             (Sample.get "http://localhost/api/paid?a=1&toString=x&a=2" [])
             DEFAULT_PAYMENT_HEADER_ALIASES "valueOf").
    + intros entry Hin. vm_compute in Hin.
      repeat (apply elem_of_cons in Hin as [-> | Hin]; [discriminate|]).
      by apply elem_of_nil in Hin.
    + do 6 apply list_elem_of_further. apply list_elem_of_here.
  - vm_compute. reflexivity.
Defined.

(* ===================================================================== *)
(** ** Further properties of the hooks *)
(* ===================================================================== *)

Section HookProperties.
Import JsString.
Context {realm : Realm} {World : Type} {uptoLib : UptoLib World}.

Implicit Types (config : ElysiaPaymentMiddlewareConfig World)
  (ctx : ElysiaRequestContext) (s : Store World).

Lemma settles_disabled config state :
  autoSettleOf config = false → settles config state = false.
Proof.
  intros Hauto. unfold settles. rewrite Hauto.
  destruct (result <$> state) as [[| |]|]; try done. apply andb_false_r.
Qed.

(** X10.  When [autoSettle] is configured as [false], no request makes
    the middleware call [processSettlement], whatever the payment check
    returns. *)
Theorem settlement_disabled (afterHandleOnEarlyResponse : bool) config ctx
    (routeHandler : World → JsValue * World) s response s' :
  autoSettle config = Some false →
  handleRequest afterHandleOnEarlyResponse config ctx routeHandler s
  = (response, s') →
  ∃ events,
    trace s' = trace s ++ events
    ∧ Forall (λ e, isProcessSettlementCall e = false) events.
Proof.
  intros Hauto Hrun.
  assert (Hoff : autoSettleOf config = false) by (unfold autoSettleOf; by rewrite Hauto).
  apply handleRequest_run in Hrun as (early & s2 & Hbefore & Hrest).
  destruct (onBeforeHandle_spec _ _ _ _ _ Hbefore)
    as (r & s1 & made & tracks & trackingResult & _ & _ & Htrace1 & Htrace2
        & _ & Htracks & _).
  assert (Hbeforecalls :
            Forall (λ e, isProcessSettlementCall e = false)
              ((callEvent <$> made) ++ tracks)).
  { apply Forall_app. split.
    - apply Forall_fmap, Forall_true. by intros [].
    - destruct (tracksUpto config r).
      + destruct Htracks as (t & -> & _). by repeat constructor.
      + destruct Htracks as [-> _]. constructor. }
  assert (Hidle : ∀ s3 u, onAfterHandle config ctx s3 = (u, s') → trace s' = trace s3).
  { intros s3 u Hafter.
    by apply onAfterHandle_idle in Hafter as (_ & ? & _);
      [|apply settles_disabled]. }
  destruct (answerOf early) as [body|].
  - destruct Hrest as [_ Hrest].
    exists ((callEvent <$> made) ++ tracks). split; [|done].
    rewrite app_assoc, <- Htrace1, <- Htrace2.
    destruct afterHandleOnEarlyResponse; [|by subst].
    destruct Hrest as [u Hafter]. by eapply Hidle.
  - destruct Hrest as (w3 & u & _ & Hafter).
    exists (((callEvent <$> made) ++ tracks) ++ [RouteHandlerCall]). split.
    + rewrite (Hidle _ _ Hafter). simpl.
      by rewrite Htrace2, Htrace1, <- !app_assoc.
    + apply Forall_app. split; [done|]. by repeat constructor.
Qed.


(** X12.  When the upto tracking of a verified payment succeeds, the
    request proceeds to the route handler, nothing is settled, and the
    response carries the session id in the header "x-upto-session-id",
    the other headers and the status being as they were. *)
Theorem upto_tracked_proceeds (afterHandleOnEarlyResponse : bool) config ctx
    (routeHandler : World → JsValue * World) s s1 uptoConfig paymentPayload
    paymentRequirements sessionId w2 answer w3 :
  paymentCheck config ctx s
  = (PaymentVerified paymentPayload paymentRequirements, s1) →
  upto config = Some uptoConfig →
  schemeIsUpto paymentRequirements = true →
  autoTrackOf config = true →
  trackUptoPayment (upto_store uptoConfig) paymentPayload paymentRequirements
    (world s1) = (TrackingSuccess sessionId, w2) →
  routeHandler w2 = (answer, w3) →
  ∃ s' headers,
    handleRequest afterHandleOnEarlyResponse config ctx routeHandler s
    = (answer, s')
    ∧ world s' = w3
    ∧ trace s' = trace s1 ++ [ TrackUptoPaymentCall (TrackingSuccess sessionId);
                               RouteHandlerCall ]
    ∧ set_status (set s') = set_status (set s)
    ∧ set_headers (set s') = Some headers
    ∧ headers !! "x-upto-session-id" = Some sessionId
    ∧ ∀ name, name ≠ "x-upto-session-id" →
              headers !! name = default ∅ (set_headers (set s)) !! name.
Proof.
  intros Hcheck Hupto Hscheme Hauto Htrack Hhandler.
  assert (Htracks : tracksUpto config
                      (PaymentVerified paymentPayload paymentRequirements) = true).
  { unfold tracksUpto. by rewrite Hscheme, Hauto, Hupto. }
  destruct (paymentCheck_spec _ _ _ _ _ Hcheck)
    as (_ & _ & _ & _ & _ & _ & _ & _ & Hset1 & _).
  destruct (handleRequest afterHandleOnEarlyResponse config ctx routeHandler s)
    as [response s'] eqn:Hrun.
  apply handleRequest_run in Hrun as (early & s2 & Hbefore & Hrest).
  destruct (onBeforeHandle_tracked _ _ _ _ _ _ _ Hbefore Hcheck Htracks)
    as (uc & payload & reqs & t & [= <- <-] & Huc & Htrack' & Htrace2 & Hx402 & Ht).
  rewrite Hupto in Huc. injection Huc as <-.
  rewrite Htrack in Htrack'. injection Htrack' as <- Hw.
  destruct Ht as [-> Hset2]. simpl in Hrest.
  destruct Hrest as (w3' & u & Hhandler' & Hafter).
  rewrite <- Hw, Hhandler in Hhandler'. injection Hhandler' as <- <-.
  apply onAfterHandle_idle in Hafter as (Hw' & Htrace' & _ & Hset');
    [|simpl; rewrite Hx402; by apply settles_tracked].
  simpl in *.
  assert (Hlookup : ∀ current : ElysiaSet,
            set_headers (withHeaders current {[ "x-upto-session-id" := sessionId ]})
            = Some (mergeHeaders (set_headers current)
                      {[ "x-upto-session-id" := sessionId ]})) by done.
  assert (Hmerged : ∀ (current : option (gmap string string)) name,
            mergeHeaders current {[ "x-upto-session-id" := sessionId ]} !! name
            = if decide (name = "x-upto-session-id") then Some sessionId
              else default ∅ current !! name).
  { intros current name. rewrite mergeHeaders_lookup.
    destruct (decide (name = "x-upto-session-id")) as [-> | Hname].
    - by rewrite lookup_singleton_eq.
    - by rewrite lookup_singleton_ne. }
  destruct Hset' as [Hset' | (state & sid & Hstate & Htracking & Hset')].
  - exists s', (mergeHeaders (set_headers (set s1))
                  {[ "x-upto-session-id" := sessionId ]}).
    rewrite Hw', Htrace', Hset', Hset2, Htrace2, <- app_assoc, <- Hset1.
    split_and!; try done; try (by rewrite Hmerged).
    intros name Hname. rewrite Hmerged. by destruct (decide _).
  - rewrite Hx402 in Hstate. injection Hstate as <-. injection Htracking as <-.
    exists s', (mergeHeaders
                  (Some (mergeHeaders (set_headers (set s1))
                           {[ "x-upto-session-id" := sessionId ]}))
                  {[ "x-upto-session-id" := sessionId ]}).
    rewrite Hw', Htrace', Hset', Hset2, Htrace2, <- app_assoc, <- Hset1.
    split_and!; try done; try (by rewrite Hmerged).
    intros name Hname. rewrite Hmerged. destruct (decide _); [done|].
    simpl. rewrite Hmerged. by destruct (decide _).
Qed.
End HookProperties.

(** X14.  [mergeHeaders]: a header of [next] wins over the header of the
    same name in [current], the other headers of [current] are kept, an
    undefined [current] counts as empty, and merging the same headers a
    second time changes nothing. *)
Theorem mergeHeaders_laws (current : option (gmap string string))
    (next : gmap string string) :
  (∀ name,
     mergeHeaders current next !! name
     = match next !! name with
       | Some value => Some value
       | None => default ∅ current !! name
       end)
  ∧ mergeHeaders (Some (mergeHeaders current next)) next = mergeHeaders current next
  ∧ mergeHeaders current ∅ = default ∅ current
  ∧ mergeHeaders None next = next.
Proof.
  split_and!.
  - apply mergeHeaders_lookup.
  - apply map_eq. intros name. rewrite !mergeHeaders_lookup. simpl.
    rewrite mergeHeaders_lookup. by destruct (next !! name).
  - apply map_eq. intros name. by rewrite mergeHeaders_lookup, lookup_empty.
  - apply map_eq. intros name. rewrite mergeHeaders_lookup. simpl.
    rewrite lookup_empty. by destruct (next !! name).
Qed.

Section CheckCalls.
Import JsString.
Context {realm : Realm} {World : Type}.

Implicit Types (config : ElysiaPaymentMiddlewareConfig World)
  (ctx : ElysiaRequestContext) (s : Store World).

Lemma pathCandidatesOf_head config ctx :
  head (pathCandidatesOf config ctx)
  = Some (normalizePathCandidate (pathname (resolveUrl (request ctx)))).
Proof.
  destruct (head_getPathCandidates ctx
              (getPath (createAdapter ctx (aliasesOf config)))) as [k Hk].
  destruct (prefix_expandPathCandidates
              (getPathCandidates ctx (getPath (createAdapter ctx (aliasesOf config))))
              (routePatternsOf config)) as [k' Hk'].
  unfold pathCandidatesOf. rewrite Hk'.
  rewrite Set_of_NoDup by apply NoDup_getPathCandidates. by rewrite Hk.
Qed.

(** X13.  In one payment check the first call of [processHTTPRequest] is
    for the pathname of the request URL, no path is asked about twice,
    there are at most three calls plus three for each route pattern, and
    the result of the check is the result of the last call. *)
Theorem paymentCheck_calls config ctx s r s1 :
  paymentCheck config ctx s = (r, s1) →
  ∃ made,
    trace s1 = trace s ++ (callEvent <$> made)
    ∧ head (fst <$> made)
      = Some (normalizePathCandidate (pathname (resolveUrl (request ctx))))
    ∧ NoDup (fst <$> made)
    ∧ length made ≤ 3 * (1 + length (routePatternsOf config))
    ∧ last (snd <$> made) = Some r.
Proof.
  intros Hcheck.
  destruct (paymentCheck_spec _ _ _ _ _ Hcheck)
    as (paywall & s0 & made & skipped & _ & Hcands & _ & Htrace & _ & _ & Hshape).
  exists made.
  assert (Hlast : last (snd <$> made) = Some r).
  { destruct Hshape as [(before & c & -> & _) | (_ & _ & ? & _)]; [|done].
    rewrite fmap_app. simpl. apply last_snoc. }
  assert (Hne : made ≠ []) by (intros ->; discriminate).
  pose proof (pathCandidatesOf_head config ctx) as Hhead.
  pose proof (NoDup_expandPathCandidates
                (getPathCandidates ctx (getPath (createAdapter ctx (aliasesOf config))))
                (routePatternsOf config)) as Hnodup.
  pose proof (length_expandPathCandidates
                (getPathCandidates ctx (getPath (createAdapter ctx (aliasesOf config))))
                (routePatternsOf config)) as Hlen.
  pose proof (length_baseCandidates config ctx) as Hbase.
  unfold pathCandidatesOf in Hcands, Hhead. rewrite Hcands in Hnodup, Hlen, Hhead.
  split_and!; try done.
  - destruct made; [done|]. by simpl in *.
  - by apply NoDup_app in Hnodup as [? _].
  - rewrite length_app, length_fmap in Hlen. nia.
Qed.
End CheckCalls.

(** The sample request [GET http://localhost/paid]: two calls, the first
    for "/paid". *)
Lemma paymentCheck_calls_witness :
  let ctx := Sample.get "http://localhost/paid" [] in
  let run := paymentCheck Sample.config ctx Sample.initial in
  ∃ made,
    trace (snd run) = trace Sample.initial ++ (callEvent <$> made)
    ∧ head (fst <$> made)
      = Some (normalizePathCandidate (pathname (resolveUrl (request ctx))))
    ∧ NoDup (fst <$> made)
    ∧ length made ≤ 3 * (1 + length (routePatternsOf Sample.config))
    ∧ last (snd <$> made) = Some (fst run).
Proof.
  intros ctx run.
  apply (paymentCheck_calls Sample.config ctx Sample.initial (fst run) (snd run)).
  vm_compute. reflexivity.
Defined.

(** With [autoSettle: false] the sample request for the paid route ends
    without a settlement. *)
Lemma settlement_disabled_witness :
  let config :=
    {| httpServer := Sample.server; routes := routes Sample.config;
       paywallConfig := None; paymentHeaderAliases := None;
       autoSettle := Some false; upto := None |} in
  let run :=
    handleRequest true config (Sample.get "http://localhost/api/paid" [])
      Sample.routeHandler Sample.initial in
  ∃ events,
    trace (snd run) = trace Sample.initial ++ events
    ∧ Forall (λ e, isProcessSettlementCall e = false) events.
Proof.
  intros config run.
  apply (settlement_disabled true config
           (Sample.get "http://localhost/api/paid" []) Sample.routeHandler
           Sample.initial (fst run) (snd run)).
  - reflexivity.
  - vm_compute. reflexivity.
Defined.


(** The sample request for the metered route, tracked with success. *)
Lemma upto_tracked_proceeds_witness :
  let ctx := Sample.get "http://localhost/api/metered" [] in
  ∃ s' headers,
    handleRequest true Sample.config ctx Sample.routeHandler Sample.initial
    = (JsString "premium content", s')
    ∧ world s' = 3
    ∧ trace s'
      = trace (snd (paymentCheck Sample.config ctx Sample.initial))
        ++ [ TrackUptoPaymentCall (TrackingSuccess "session-1"); RouteHandlerCall ]
    ∧ set_status (set s') = set_status (set Sample.initial)
    ∧ set_headers (set s') = Some headers
    ∧ headers !! "x-upto-session-id" = Some "session-1"
    ∧ ∀ name, name ≠ "x-upto-session-id" →
              headers !! name
              = default ∅ (set_headers (set Sample.initial)) !! name.
Proof.
  intros ctx.
  apply (upto_tracked_proceeds true Sample.config ctx Sample.routeHandler
           Sample.initial
           (snd (paymentCheck Sample.config ctx Sample.initial))
           {| upto_store := 0; upto_autoTrack := None |}
           Sample.somePayload Sample.uptoRequirements "session-1" 2
           (JsString "premium content") 3);
    vm_compute; reflexivity.
Defined.

(* ===================================================================== *)
(** ** Resolving the HTTP server *)
(* ===================================================================== *)

Section ResolveHttpServer.
Context {World : Type} {serverLib : ServerLib World}.

(** X15.  [resolveHttpServer] returns a configured [httpServer] as it is,
    whatever else is configured.  Without one it throws "Elysia payment
    middleware requires routes." exactly when there are no routes, and
    "Elysia payment middleware requires a resourceServer or
    facilitatorClient." exactly when there are routes but neither of the
    two; a configured [resourceServer] is used without consulting the
    facilitator client. *)
Theorem resolveHttpServer_errors (config : ServerSetup World) :
  (∀ server,
     setup_httpServer config = Some server →
     resolveHttpServer config = inr server)
  ∧ (∀ message,
       resolveHttpServer config = inl (SetupError message) ↔
         setup_httpServer config = None
         ∧ ((setup_routes config = None
             ∧ message = "Elysia payment middleware requires routes.")
            ∨ (is_Some (setup_routes config)
               ∧ setup_resourceServer config = None
               ∧ setup_facilitatorClient config = None
               ∧ message
                 = "Elysia payment middleware requires a resourceServer or facilitatorClient.")))
  ∧ (∀ server routes,
       setup_httpServer config = None →
       setup_routes config = Some routes →
       setup_resourceServer config = Some server →
       resolveHttpServer config
       = match new_x402HTTPResourceServer server routes with
         | inl e => inl (LibraryError e)
         | inr httpServer => inr httpServer
         end).
Proof.
  unfold resolveHttpServer. split_and!.
  - by intros server ->.
  - intros message.
    destruct (setup_httpServer config) as [server|]; [naive_solver|].
    destruct (setup_routes config) as [routes|].
    2: { split; [intros [= <-]|]; naive_solver. }
    destruct (setup_resourceServer config) as [server|].
    { destruct (new_x402HTTPResourceServer server routes); naive_solver. }
    destruct (setup_facilitatorClient config) as [client|].
    { destruct (createResourceServer client _) as [e|server]; [naive_solver|].
      destruct (new_x402HTTPResourceServer server routes); naive_solver. }
    split; [intros [= <-]|]; naive_solver.
  - by intros server routes -> -> ->.
Qed.
End ResolveHttpServer.

(** A configuration with routes but neither a resource server nor a
    facilitator client. *)
Lemma resolveHttpServer_errors_witness :
  resolveHttpServer
    {| setup_httpServer := None; setup_resourceServer := None;
       setup_facilitatorClient := None; setup_serverConfig := None;
       setup_routes := Some [ "GET /api/paid" ] |}
  = inl (SetupError
           "Elysia payment middleware requires a resourceServer or facilitatorClient.").
Proof.
  apply (resolveHttpServer_errors
           {| setup_httpServer := None; setup_resourceServer := None;
              setup_facilitatorClient := None; setup_serverConfig := None;
              setup_routes := Some [ "GET /api/paid" ] |}).
  split; [reflexivity|]. right. split; [by eexists|]. by split_and!.
Defined.

(* ===================================================================== *)
(** ** Further properties of the Starknet client scheme *)
(* ===================================================================== *)

Section StarknetScheme.
Context {lib : StarknetLib}.

Lemma registerEach_registered {C : Type}
    (register : string → ExactStarknetClientScheme → C → option JsValue * C)
    scheme (registerNetworks : list StarknetNetworkId) (client client' : C) :
  registerEach register scheme registerNetworks client = (None, client') ↔
    registered register scheme client (networkName <$> registerNetworks) client'.
Proof.
  revert client. induction registerNetworks as [|network rest IH]; intros client; simpl.
  - split.
    + intros [= <-]. constructor.
    + by inversion 1.
  - destruct (register (networkName network) scheme client) as [[e|] c1] eqn:Hcall.
    + split; [done|]. inversion 1; congruence.
    + rewrite IH. split.
      * intros Hrest. by econstructor.
      * inversion 1 as [|? ? c2 ? ? Hcall' Hrest]. subst.
        rewrite Hcall in Hcall'. by injection Hcall' as <-.
Qed.

(** X16.  [registerExactStarknetClientScheme] throws "Starknet account is
    required." and leaves the client untouched when the account is
    missing.  When it returns, the scheme it returns carries the
    configured account and paymaster settings and has been registered
    once for each network, in order: for Starknet mainnet and Sepolia
    when [networks] is not given, for the one network or the networks of
    the array otherwise, so for none when the array is empty. *)
Theorem registerExactStarknetClientScheme_spec {C : Type}
    (register : string → ExactStarknetClientScheme → C → option JsValue * C)
    (config : ExactStarknetClientConfig) (client : C) :
  (truthy (config_account (scheme_config config)) = false →
   registerExactStarknetClientScheme register config client
   = (inl (SchemeError (Error "Starknet account is required.")), client))
  ∧ (∀ scheme client',
       registerExactStarknetClientScheme register config client
       = (inr scheme, client') →
       truthy (config_account (scheme_config config)) = true
       ∧ account scheme = config_account (scheme_config config)
       ∧ paymasterEndpoint scheme = config_paymasterEndpoint (scheme_config config)
       ∧ paymasterApiKey scheme = config_paymasterApiKey (scheme_config config)
       ∧ ∃ names,
           registered register scheme client names client'
           ∧ (networks config = None →
              names = [ "starknet:mainnet"; "starknet:sepolia" ])
           ∧ (∀ network, networks config = Some (OneNetwork network) →
                         names = [ networkName network ])
           ∧ (∀ networks', networks config = Some (ManyNetworks networks') →
                           names = networkName <$> networks')
           ∧ (networks config = Some (ManyNetworks []) → client' = client)).
Proof.
  unfold registerExactStarknetClientScheme, new_ExactStarknetClientScheme.
  split.
  - by intros ->.
  - intros scheme client'.
    destruct (truthy (config_account (scheme_config config))); [|done]. simpl.
    set (registerNetworks := match networks config with
                             | Some (ManyNetworks l) => l
                             | Some (OneNetwork n) => [n]
                             | None => DEFAULT_STARKNET_CLIENT_NETWORKS
                             end).
    destruct (registerEach register _ registerNetworks client)
      as [[e|] c1] eqn:Hloop; [done|].
    intros [= <- <-]. split_and!; try done.
    apply registerEach_registered in Hloop.
    exists (networkName <$> registerNetworks). subst registerNetworks.
    split_and!; try done.
    + by intros ->.
    + by intros network ->.
    + by intros networks' ->.
    + intros Hnone. rewrite Hnone in Hloop. by inversion Hloop.
Qed.

(** X17.  A payload returned by [createPaymentPayload] has exactly the
    properties "x402Version", "payload", "typedData" and
    "paymasterEndpoint": the version is the one asked for, the payload is
    the chain library's, and the paymaster endpoint is the chain
    library's when it gave one and otherwise the resolved endpoint, so
    never [undefined] or [null].  An error of the chain library is thrown
    on unchanged, and only then. *)
Theorem createPaymentPayload_shape (this : ExactStarknetClientScheme)
    (x402Version : Z) (requirements : PlainObject) :
  (∀ payload,
     createPaymentPayload this x402Version requirements = inr payload →
     fst <$> payload = [ "x402Version"; "payload"; "typedData"; "paymasterEndpoint" ]
     ∧ own_get payload "x402Version" = JsNumber x402Version
     ∧ ∃ network built,
         validateNetwork (own_get requirements "network") = inr network
         ∧ chain_createPaymentPayload (account this) x402Version requirements
             (paymasterOptionsOf this network) = inr built
         ∧ own_get payload "payload" = own_get built "payload"
         ∧ own_get payload "paymasterEndpoint"
           = (if is_undefined (own_get built "paymasterEndpoint")
                 || is_null (own_get built "paymasterEndpoint")
              then JsString (resolvePaymasterEndpoint network (paymasterEndpoint this))
              else own_get built "paymasterEndpoint")
         ∧ is_undefined (own_get payload "paymasterEndpoint") = false
         ∧ is_null (own_get payload "paymasterEndpoint") = false)
  ∧ (∀ e,
       createPaymentPayload this x402Version requirements
       = inl (ChainLibraryError e) ↔
         validateNetwork (own_get requirements "network") = inl e
         ∨ ∃ network,
             validateNetwork (own_get requirements "network") = inr network
             ∧ chain_createPaymentPayload (account this) x402Version requirements
                 (paymasterOptionsOf this network) = inl e).
Proof.
  unfold createPaymentPayload. split.
  - intros payload.
    destruct (validateNetwork _) as [e | network] eqn:Hnetwork; [done|].
    destruct (chain_createPaymentPayload _ _ _ _) as [e | built] eqn:Hbuilt; [done|].
    destruct (assertStarknetTypedData built) as [e | []]; [done|].
    intros [= <-]. split_and!; try done.
    exists network, built. split_and!; try done;
      simpl; by destruct (own_get built "paymasterEndpoint").
  - intros e.
    destruct (validateNetwork _) as [e' | network] eqn:Hnetwork.
    { split; [intros [= ->]; by left|]. intros [[= ->] | (? & [=] & _)]. done. }
    destruct (chain_createPaymentPayload _ _ _ _) as [e' | built] eqn:Hbuilt.
    { split; [intros [= ->]; right; by exists network|].
      intros [[=] | (network' & [= <-] & Hchain)].
      rewrite Hbuilt in Hchain. by injection Hchain as ->. }
    split.
    + unfold assertStarknetTypedData.
      by destruct (negb _).
    + intros [[=] | (network' & [= <-] & Hchain)].
      by rewrite Hbuilt in Hchain.
Qed.
End StarknetScheme.

(** A client that records the names it is given: nothing is recorded
    without an account, and the two default networks are recorded with
    one. *)
Lemma registerExactStarknetClientScheme_spec_witness :
  registerExactStarknetClientScheme Cases.recordingRegister
    {| scheme_config :=
         {| config_account := JsUndefined; config_paymasterEndpoint := None;
            config_paymasterApiKey := None |};
       networks := None |} []
  = (inl (SchemeError (Error "Starknet account is required.")), [])
  ∧ ∃ names,
      registered Cases.recordingRegister
        {| account := JsString "0x1"; paymasterEndpoint := None;
           paymasterApiKey := None |}
        [] names [ "starknet:mainnet"; "starknet:sepolia" ]
      ∧ names = [ "starknet:mainnet"; "starknet:sepolia" ].
Proof.
  split.
  - apply (registerExactStarknetClientScheme_spec Cases.recordingRegister
             {| scheme_config :=
                  {| config_account := JsUndefined; config_paymasterEndpoint := None;
                     config_paymasterApiKey := None |};
                networks := None |} []).
    reflexivity.
  - destruct (registerExactStarknetClientScheme_spec Cases.recordingRegister
                {| scheme_config :=
                     {| config_account := JsString "0x1";
                        config_paymasterEndpoint := None;
                        config_paymasterApiKey := None |};
                   networks := None |} []) as [_ Hreturns].
    destruct (Hreturns
                {| account := JsString "0x1"; paymasterEndpoint := None;
                   paymasterApiKey := None |}
                [ "starknet:mainnet"; "starknet:sepolia" ])
      as (_ & _ & _ & _ & names & Hregistered & Hdefault & _); [reflexivity|].
    exists names. split; [exact Hregistered|]. by apply Hdefault.
Defined.

(** The sample chain library gives no paymaster endpoint, so the payload
    carries the default endpoint of the network. *)
Lemma createPaymentPayload_shape_witness :
  ∃ payload,
    createPaymentPayload
      {| account := JsString "0x1"; paymasterEndpoint := None;
         paymasterApiKey := None |}
      2 Sample.exactRequirements = inr payload
    ∧ fst <$> payload = [ "x402Version"; "payload"; "typedData"; "paymasterEndpoint" ]
    ∧ own_get payload "x402Version" = JsNumber 2.
Proof.
  eexists. split; [vm_compute; reflexivity|].
  destruct (createPaymentPayload_shape
              {| account := JsString "0x1"; paymasterEndpoint := None;
                 paymasterApiKey := None |}
              2 Sample.exactRequirements) as [Hshape _].
  edestruct Hshape as (Hkeys & Hversion & _); [vm_compute; reflexivity|].
  by split.
Defined.

Section MoreHookProperties.
Import JsString.
Context {realm : Realm} {World : Type} {uptoLib : UptoLib World}.

Implicit Types (config : ElysiaPaymentMiddlewareConfig World)
  (ctx : ElysiaRequestContext) (s : Store World).

(** X18.  The path that the adapter reports to the library,
    [adapter.getPath()], is one of the candidate paths that the hook
    tries, once normalized to start with "/"; it is [ctx.path] when that
    is a non-empty string. *)
Theorem adapterPath_candidate config ctx :
  let adapter := createAdapter ctx (aliasesOf config) in
  normalizePathCandidate (getPath adapter) ∈ pathCandidatesOf config ctx
  ∧ (startsWith (getPath adapter) "/" = true →
     getPath adapter ∈ pathCandidatesOf config ctx)
  ∧ (∀ p, path ctx = Some p → p ≠ "" →
          getPath adapter = normalizePathCandidate p).
Proof.
  intros adapter.
  assert (Hin : normalizePathCandidate (getPath adapter)
                ∈ pathCandidatesOf config ctx).
  { apply requestCandidate_elem, getPath_requestCandidate. }
  split_and!; [done| |].
  - intros Hslash. by rewrite normalizePathCandidate_id in Hin.
  - intros p Hp Hne. subst adapter. unfold createAdapter, nonEmptyString.
    cbn [getPath]. rewrite Hp.
    apply eqb_string_ne in Hne. by rewrite Hne.
Qed.

End MoreHookProperties.


(** The sample request with [ctx.path] set by the framework. *)
Lemma adapterPath_candidate_witness :
  getPath
    (createAdapter
       {| request := {| req_url := "http://localhost/api/paid"; req_method := "GET";
                        req_headers := [] |};
          body := JsUndefined; path := Some "paid"; route := None |}
       (aliasesOf Sample.config))
  = "/paid".
Proof.
  destruct (adapterPath_candidate Sample.config
              {| request := {| req_url := "http://localhost/api/paid";
                               req_method := "GET"; req_headers := [] |};
                 body := JsUndefined; path := Some "paid"; route := None |})
    as (_ & _ & Hpath).
  apply (Hpath "paid"); [reflexivity|discriminate].
Defined.
